(** * compressImageFileWithLimit: resize and iterative recompression

    A shallow embedding of [src/utils/compressImageFile.ts].

    Modelling choices.
    - JavaScript numbers are modelled by exact rationals ([Q]); pixel
      dimensions and byte sizes, which the browser reports as integers, by [Z].
      [Math.round] is "nearest integer, ties towards +infinity", that is
      [floor (x + 1/2)].
      The only division of the source, by a side of the decoded image, is
      modelled for positive sides, which is what a decoded image has.
      The first model computes [-], [*] and [/] exactly; [Generic] is the
      same code over any implementation of the three, of which the doubles
      of JavaScript ([Binary64]) are one.  What is stated of exact arithmetic
      is proved on the first model, the rest on [Generic].
    - JavaScript strings are modelled by [string] (sequences of 8-bit code
      units); data URLs and binary strings fit this model.
    - The browser facilities the function calls ([FileReader], [Image],
      the canvas, [fetch], [atob]) are fields of a [Host] record.  A rejected
      promise or a thrown exception is the [Throw] outcome.
    - Every call of a browser facility is logged, in order, in a trace of
      [Event]s, so that the number of encode attempts can be counted.
    - The [do ... while] loop is a fuel-indexed fixpoint; the body always runs
      once, the fuel bounds the number of repetitions after the first pass. *)

From Stdlib Require Import ZArith QArith Qround Qabs Qminmax Bool List Lia Lqa.
From Stdlib Require PrimFloat SpecFloat FloatOps Uint63.
From Stdlib Require Import Strings.String Strings.Ascii Strings.Byte.
Import ListNotations.

Local Open Scope Z_scope.

(** ** JavaScript primitives used by the source *)

Module JS.

(** [Math.round]: nearest integer, halves rounded up. *)
Definition Math_round (x : Q) : Z := Qfloor (x + (1 # 2)).

(** [Math.min] on two (finite) numbers. *)
Definition Math_min (a b : Q) : Q := if Qle_bool a b then a else b.

(** [a > b] on numbers. *)
Definition gt (a b : Q) : bool := negb (Qle_bool a b).

(** [s.startsWith(p)]. *)
Definition startsWith (s p : string) : bool := String.prefix p s.

(** [s.split(c)] for a one-character separator: never the empty array. *)
Fixpoint split (sep : ascii) (s : string) : list string :=
  match s with
  | EmptyString => [EmptyString]
  | String c rest =>
      if Ascii.eqb c sep then EmptyString :: split sep rest
      else match split sep rest with
           | [] => [String c EmptyString]
           | hd :: tl => String c hd :: tl
           end
  end.

(** The regular expression class [\w]: [[A-Za-z0-9_]]. *)
Definition isWordChar (c : ascii) : bool :=
  let n := N_of_ascii c in
  ((65 <=? n) && (n <=? 90) || (97 <=? n) && (n <=? 122)
   || (48 <=? n) && (n <=? 57) || (n =? 95))%N.

(** The regular expression atom [.]: anything but a line terminator. *)
Definition isLineTerminator (c : ascii) : bool :=
  let n := N_of_ascii c in ((n =? 10) || (n =? 13))%N.

(** [\w+$] anchored at the start of [s]: [s] is a non-empty run of word
    characters reaching the end of the string. *)
Fixpoint allWord (s : string) : bool :=
  match s with
  | EmptyString => true
  | String c rest => isWordChar c && allWord rest
  end.

Definition matchesWordsToEnd (s : string) : bool :=
  match s with
  | EmptyString => false
  | String _ _ => allWord s
  end.

(** [s.replace(/\.\w+$/, r)]: the leftmost position where the pattern
    matches is replaced; without a match the string is returned as it is. *)
Fixpoint replaceTrailingExt (r : string) (s : string) : string :=
  match s with
  | EmptyString => EmptyString
  | String c rest =>
      if Ascii.eqb c "."%char && matchesWordsToEnd rest then r
      else String c (replaceTrailingExt r rest)
  end.

(** [(.*?);] anchored at the start of [s]: the shortest run of
    non-terminator characters followed by [;]; the run is the group. *)
Fixpoint lazyUpToSemicolon (s : string) : option string :=
  match s with
  | EmptyString => None
  | String c rest =>
      if Ascii.eqb c ";"%char then Some EmptyString
      else if isLineTerminator c then None
      else option_map (String c) (lazyUpToSemicolon rest)
  end.

(** [s.match(/:(.*?);/)]: [None] is JavaScript's [null]; otherwise the
    captured group [[1]] of the leftmost match. *)
Fixpoint matchColonGroup (s : string) : option string :=
  match s with
  | EmptyString => None
  | String c rest =>
      if Ascii.eqb c ":"%char then
        match lazyUpToSemicolon rest with
        | Some g => Some g
        | None => matchColonGroup rest
        end
      else matchColonGroup rest
  end.

End JS.

(** ** Data model *)

(** A [File]: the bytes, the name and the declared mime type. *)
Record File := mkFile {
  file_bits : list byte;
  file_name : string;
  file_type : string
}.

(** The part of an [HTMLImageElement] the function reads. *)
Record HTMLImageElement := mkImage {
  img_width : Z;
  img_height : Z
}.

(** The options object, every field with its default. *)
Record Options := mkOptions {
  maxLongSide : Q;
  maxShortSide : Q;
  maxSizeBytes : Q;
  mimeType : string;
  initialQuality : Q;
  minQuality : Q;
  qualityStep : Q
}.

Definition defaultOptions : Options :=
  {| maxLongSide := inject_Z 1568;
     maxShortSide := inject_Z 768;
     maxSizeBytes := inject_Z (19 * 1024 * 1024);
     mimeType := "image/webp";
     initialQuality := 92 # 100;
     minQuality := 5 # 10;
     qualityStep := 7 # 100 |}.

(** ** Dimension planning (source lines 56-67) *)

Record Plan := mkPlan {
  plan_scale : Q;
  plan_width : Z;
  plan_height : Z
}.

Definition shortSideOf (width height : Z) : Z :=
  let isPortrait := height >=? width in
  if isPortrait then width else height.

Definition longSideOf (width height : Z) : Z :=
  let isPortrait := height >=? width in
  if isPortrait then height else width.

Definition needsResize (o : Options) (width height : Z) : bool :=
  JS.gt (inject_Z (shortSideOf width height)) (maxShortSide o)
  || JS.gt (inject_Z (longSideOf width height)) (maxLongSide o).

Definition planDimensions (o : Options) (width height : Z) : Plan :=
  let shortSide := shortSideOf width height in
  let longSide := longSideOf width height in
  if needsResize o width height then
    let scale := JS.Math_min (maxShortSide o / inject_Z shortSide)
                             (maxLongSide o / inject_Z longSide) in
    {| plan_scale := scale;
       plan_width := JS.Math_round (inject_Z width * scale);
       plan_height := JS.Math_round (inject_Z height * scale) |}
  else
    {| plan_scale := 1; plan_width := width; plan_height := height |}.

(** ** Effects: a trace of browser calls and three outcomes *)

Inductive Error :=
| FileReaderError        (* new Error('FileReader error') *)
| ImageLoadError         (* new Error('Image load error') *)
| CanvasError            (* drawImage / toDataURL threw *)
| FetchError             (* fetch(dataURL) rejected *)
| NullMatchError         (* TypeError: match(...) is null *)
| AtobError.             (* InvalidCharacterError from atob *)

Inductive Event :=
| EvReadAsDataURL
| EvLoadImage
| EvDrawImage (width height : Z)
| EvToDataURL (mime : string) (quality : Q)
| EvFetch (url : string)
| EvAtob.

Inductive Outcome (A : Type) :=
| Return (a : A)
| Throw (e : Error)
| OutOfFuel.

Arguments Return {A} a.
Arguments Throw {A} e.
Arguments OutOfFuel {A}.

(** A computation: the events it emitted, in order, and how it ended. *)
Definition M (A : Type) : Type := (list Event * Outcome A)%type.

Definition ret {A} (a : A) : M A := ([], Return a).

Definition bind {A B} (m : M A) (k : A -> M B) : M B :=
  match m with
  | (t, Return a) => let (t', r) := k a in (t ++ t', r)
  | (t, Throw e) => (t, Throw e)
  | (t, OutOfFuel) => (t, OutOfFuel)
  end.

Definition emit (e : Event) : M unit := ([e], Return tt).

Definition throw {A} (e : Error) : M A := ([], Throw e).

Definition outOfFuel {A} : M A := ([], OutOfFuel).

(** Run a fallible browser facility: [None] is a throw of [e]. *)
Definition orThrow {A} (e : Error) (o : option A) : M A :=
  match o with
  | Some a => ret a
  | None => throw e
  end.

Declare Scope js_scope.
Delimit Scope js_scope with js.
Notation "x <- m ;; k" := (bind m (fun x => k))
  (at level 61, m at next level, right associativity) : js_scope.
Notation "m ;;; k" := (bind m (fun _ => k))
  (at level 61, right associativity) : js_scope.

Definition trace {A} (m : M A) : list Event := fst m.
Definition outcome {A} (m : M A) : Outcome A := snd m.

(** ** The browser *)

Record Host := mkHost {
  (** [FileReader.readAsDataURL]; [None]: the 'error' event fired. *)
  readAsDataURL : File -> option string;
  (** [new Image(); img.src = dataURL]; [None]: the 'error' event fired. *)
  loadImage : string -> option HTMLImageElement;
  (** A fresh canvas of the given size, [drawImage(img, 0, 0, width, height)]
      and [toDataURL(mime, quality)]; [None]: one of them threw. *)
  canvasToDataURL : HTMLImageElement -> Z -> Z -> string -> Q -> option string;
  (** [(await (await fetch(url)).blob()).size]; [None]: rejected. *)
  fetchBlobSize : string -> option Z;
  (** [atob]; [None]: it threw. *)
  atob : string -> option string
}.

Section Compress.

Variable host : Host.

Local Open Scope js_scope.

Definition fileToDataURL (file : File) : M string :=
  emit EvReadAsDataURL ;;; orThrow FileReaderError (readAsDataURL host file).

Definition dataURLToImage (dataURL : string) : M HTMLImageElement :=
  emit EvLoadImage ;;; orThrow ImageLoadError (loadImage host dataURL).

(** One pass of the loop body (source lines 73-80): the data URL produced
    and the size of the blob fetched from it. *)
Definition encodeOnce (img : HTMLImageElement) (width height : Z)
           (mime : string) (quality : Q) : M (string * Z) :=
  emit (EvDrawImage width height) ;;;
  emit (EvToDataURL mime quality) ;;;
  url <- orThrow CanvasError (canvasToDataURL host img width height mime quality) ;;
  emit (EvFetch url) ;;;
  size <- orThrow FetchError (fetchBlobSize host url) ;;
  ret (url, size).

(** The [do ... while] loop (source lines 72-82).  The result is the last
    data URL and the last blob size. *)
Fixpoint encodeLoop (o : Options) (img : HTMLImageElement) (width height : Z)
         (fuel : nat) (quality : Q) {struct fuel} : M (string * Z) :=
  r <- encodeOnce img width height (mimeType o) quality ;;
  let quality' := (quality - qualityStep o)%Q in
  if JS.gt (inject_Z (snd r)) (maxSizeBytes o) && JS.gt quality' (minQuality o)
  then match fuel with
       | O => outOfFuel
       | S fuel' => encodeLoop o img width height fuel' quality'
       end
  else ret r.

(** Source lines 85-91: from the last data URL to the returned [File]. *)
Definition dataURLToFile (file : File) (compressedDataURL : string) : M File :=
  let arr := JS.split ","%char compressedDataURL in
  outMime <- orThrow NullMatchError (JS.matchColonGroup (nth 0 arr EmptyString)) ;;
  emit EvAtob ;;;
  bstr <- orThrow AtobError (atob host (nth 1 arr "undefined"%string)) ;;
  ret {| file_bits := list_byte_of_string bstr;
         file_name := JS.replaceTrailingExt ".webp" (file_name file);
         file_type := outMime |}.

Definition compressImageFileWithLimit (o : Options) (fuel : nat) (file : File)
  : M File :=
  if negb (JS.startsWith (file_type file) "image/") then ret file
  else
    dataURL <- fileToDataURL file ;;
    img <- dataURLToImage dataURL ;;
    let p := planDimensions o (img_width img) (img_height img) in
    r <- encodeLoop o img (plan_width p) (plan_height p) fuel (initialQuality o) ;;
    dataURLToFile file (fst r).

End Compress.

(** ** The same function over any arithmetic

    The source subtracts, multiplies and divides JavaScript numbers, that is
    IEEE doubles.  [Generic] is the function above with these three
    operations taken from an [Arith]; the numbers stay rationals (every
    finite double is one), and comparisons, [Math.min] and [Math.round] are
    exact on them, as they are on doubles.  [exact] gives back the
    definitions above; [Binary64.arith] is double arithmetic. *)

Record Arith := mkArith {
  arith_sub : Q -> Q -> Q;
  arith_mul : Q -> Q -> Q;
  arith_div : Q -> Q -> Q
}.

Definition exact : Arith :=
  {| arith_sub := Qminus; arith_mul := Qmult; arith_div := Qdiv |}.

Module Generic.

Section InArith.

Variable A : Arith.

Definition planDimensions (o : Options) (width height : Z) : Plan :=
  let shortSide := shortSideOf width height in
  let longSide := longSideOf width height in
  if needsResize o width height then
    let scale := JS.Math_min (arith_div A (maxShortSide o) (inject_Z shortSide))
                             (arith_div A (maxLongSide o) (inject_Z longSide)) in
    {| plan_scale := scale;
       plan_width := JS.Math_round (arith_mul A (inject_Z width) scale);
       plan_height := JS.Math_round (arith_mul A (inject_Z height) scale) |}
  else
    {| plan_scale := 1; plan_width := width; plan_height := height |}.

Variable host : Host.

Local Open Scope js_scope.

Fixpoint encodeLoop (o : Options) (img : HTMLImageElement) (width height : Z)
         (fuel : nat) (quality : Q) {struct fuel} : M (string * Z) :=
  r <- encodeOnce host img width height (mimeType o) quality ;;
  let quality' := arith_sub A quality (qualityStep o) in
  if JS.gt (inject_Z (snd r)) (maxSizeBytes o) && JS.gt quality' (minQuality o)
  then match fuel with
       | O => outOfFuel
       | S fuel' => encodeLoop o img width height fuel' quality'
       end
  else ret r.

Definition compressImageFileWithLimit (o : Options) (fuel : nat) (file : File)
  : M File :=
  if negb (JS.startsWith (file_type file) "image/") then ret file
  else
    dataURL <- fileToDataURL host file ;;
    img <- dataURLToImage host dataURL ;;
    let p := planDimensions o (img_width img) (img_height img) in
    r <- encodeLoop o img (plan_width p) (plan_height p) fuel (initialQuality o) ;;
    dataURLToFile host file (fst r).

End InArith.

End Generic.

(** ** Double arithmetic *)

Module Binary64.

Definition float_of_Z (z : Z) : PrimFloat.float :=
  if z <? 0 then PrimFloat.opp (PrimFloat.of_uint63 (Uint63.of_Z (- z)))
  else PrimFloat.of_uint63 (Uint63.of_Z z).

(** [Some k] when [p] is [2 ^ k]. *)
Fixpoint log2_exact (p : positive) : option Z :=
  match p with
  | xH => Some 0
  | xO p' => option_map Z.succ (log2_exact p')
  | xI _ => None
  end.

(** The double nearest to [q], for a numerator below [2 ^ 53] in absolute
    value and a denominator that is a power of two or below [2 ^ 53]. *)
Definition float_of_Q (q : Q) : PrimFloat.float :=
  match log2_exact (Qden q) with
  | Some k => FloatOps.Z.ldexp (float_of_Z (Qnum q)) (- k)
  | None => PrimFloat.div (float_of_Z (Qnum q)) (float_of_Z (Zpos (Qden q)))
  end.

(** The value of a finite double. *)
Definition Q_of_float (f : PrimFloat.float) : Q :=
  match FloatOps.Prim2SF f with
  | SpecFloat.S754_finite s m e =>
      let n := if s then Zneg m else Zpos m in
      if 0 <=? e then inject_Z (n * 2 ^ e)
      else n # (Pos.pow 2 (Z.to_pos (- e)))
  | _ => 0
  end.

(** A decimal literal as JavaScript reads it. *)
Definition number (q : Q) : Q := Q_of_float (float_of_Q q).

Definition arith : Arith :=
  {| arith_sub := fun a b =>
       Q_of_float (PrimFloat.sub (float_of_Q a) (float_of_Q b));
     arith_mul := fun a b =>
       Q_of_float (PrimFloat.mul (float_of_Q a) (float_of_Q b));
     arith_div := fun a b =>
       Q_of_float (PrimFloat.div (float_of_Q a) (float_of_Q b)) |}.

(** Options with every number read as a double. *)
Definition options (o : Options) : Options :=
  {| maxLongSide := number (maxLongSide o);
     maxShortSide := number (maxShortSide o);
     maxSizeBytes := number (maxSizeBytes o);
     mimeType := mimeType o;
     initialQuality := number (initialQuality o);
     minQuality := number (minQuality o);
     qualityStep := number (qualityStep o) |}.

End Binary64.

(** ** A sample browser, for running the function on concrete inputs *)

Module Sample.

Local Open Scope N_scope.

(** The value of a character of the base64 alphabet. *)
Definition b64value (c : ascii) : option N :=
  let n := N_of_ascii c in
  if (65 <=? n) && (n <=? 90) then Some (n - 65)
  else if (97 <=? n) && (n <=? 122) then Some (n - 71)
  else if (48 <=? n) && (n <=? 57) then Some (n + 4)
  else if n =? 43 then Some 62
  else if n =? 47 then Some 63
  else None.

Definition isAsciiWhitespace (c : ascii) : bool :=
  let n := N_of_ascii c in
  (n =? 9) || (n =? 10) || (n =? 12) || (n =? 13) || (n =? 32).

Fixpoint stripWhitespace (s : string) : string :=
  match s with
  | EmptyString => EmptyString
  | String c rest =>
      if isAsciiWhitespace c then stripWhitespace rest
      else String c (stripWhitespace rest)
  end.

(** Drop one or two [=] at the end. *)
Fixpoint stripPadding (s : string) : string :=
  match s with
  | EmptyString => EmptyString
  | String c rest =>
      if String.eqb s "=" || String.eqb s "==" then EmptyString
      else String c (stripPadding rest)
  end.

Fixpoint sextets (s : string) : option (list N) :=
  match s with
  | EmptyString => Some []
  | String c rest =>
      match b64value c, sextets rest with
      | Some v, Some vs => Some (v :: vs)
      | _, _ => None
      end
  end.

Fixpoint octets (l : list N) : option string :=
  match l with
  | [] => Some EmptyString
  | a :: b :: c :: d :: rest =>
      option_map
        (fun r => String (ascii_of_N (a * 4 + b / 16))
                 (String (ascii_of_N ((b mod 16) * 16 + c / 4))
                 (String (ascii_of_N ((c mod 4) * 64 + d)) r)))
        (octets rest)
  | [a; b; c] =>
      Some (String (ascii_of_N (a * 4 + b / 16))
           (String (ascii_of_N ((b mod 16) * 16 + c / 4)) EmptyString))
  | [a; b] => Some (String (ascii_of_N (a * 4 + b / 16)) EmptyString)
  | [_] => None
  end.

(** The forgiving base64 decoding of [atob]. *)
Definition decodeBase64 (s : string) : option string :=
  let s1 := stripWhitespace s in
  let s2 := if N.of_nat (String.length s1) mod 4 =? 0
            then stripPadding s1 else s1 in
  match sextets s2 with
  | Some l => octets l
  | None => None
  end.

Fixpoint repeatString (n : nat) (s : string) : string :=
  match n with
  | O => EmptyString
  | S n' => (s ++ repeatString n' s)%string
  end.

(** The formats the sample canvas encodes; anything else falls back to PNG,
    as [toDataURL] does for a type it does not support. *)
Definition supported (mime : string) : bool :=
  String.eqb mime "image/webp" || String.eqb mime "image/jpeg"
  || String.eqb mime "image/png".

(** The sample canvas: a canvas without pixels serialises to ["data:,"];
    otherwise the payload is [floor (quality * bulk)] groups of four
    base64 characters, and [floor bulk] groups for PNG, which is lossless
    and ignores the quality. *)
Definition canvas (bulk : Q) (img : HTMLImageElement)
           (width height : Z) (mime : string) (quality : Q) : option string :=
  if ((width <=? 0) || (height <=? 0))%Z then Some "data:,"%string
  else
    let outMime := if supported mime then mime else "image/png"%string in
    let groups := if String.eqb outMime "image/png" then Qfloor bulk
                  else Qfloor (quality * bulk) in
    Some ("data:" ++ outMime ++ ";base64,"
          ++ repeatString (Z.to_nat groups) "TWFu")%string.

(** The size of the blob behind a data URL: the decoded payload's length. *)
Definition blobSize (url : string) : option Z :=
  match decodeBase64 (nth 1 (JS.split ","%char url) EmptyString) with
  | Some body => Some (Z.of_nat (String.length body))
  | None => None
  end.

(** A browser whose decoder yields a [width] x [height] image. *)
Definition host (width height : Z) (bulk : Q) : Host :=
  {| readAsDataURL := fun f =>
       Some ("data:" ++ file_type f ++ ";base64,AAAA")%string;
     loadImage := fun _ => Some (mkImage width height);
     canvasToDataURL := canvas bulk;
     fetchBlobSize := blobSize;
     atob := decodeBase64 |}.

(** The defaults with a budget of ten bytes, which no sample encoding meets. *)
Definition tightOptions (mime : string) : Options :=
  {| maxLongSide := maxLongSide defaultOptions;
     maxShortSide := maxShortSide defaultOptions;
     maxSizeBytes := inject_Z 10;
     mimeType := mime;
     initialQuality := initialQuality defaultOptions;
     minQuality := minQuality defaultOptions;
     qualityStep := qualityStep defaultOptions |}.

Definition photo : File :=
  {| file_bits := []; file_name := "photo.png"; file_type := "image/png" |}.

Definition untitled : File :=
  {| file_bits := []; file_name := "photo"; file_type := "image/png" |}.

Definition report : File :=
  {| file_bits := []; file_name := "report.pdf";
     file_type := "application/pdf" |}.

End Sample.

(** ** The spec's reading of the renaming, for comparison with the code *)

Module Spec.

(** The spec's words: "the canonical extension of the configured output
    mime type (e.g. "image/webp" -> ".webp")": a dot and the subtype. *)
Definition canonicalExtension (mime : string) : string :=
  ("." ++ nth 1 (JS.split "/"%char mime) EmptyString)%string.

(** The name up to its last dot; the whole name when it has no dot. *)
Fixpoint stem (name : string) : string :=
  match name with
  | EmptyString => EmptyString
  | String c rest =>
      if Ascii.eqb c "."%char
         && negb (existsb (Ascii.eqb "."%char) (list_ascii_of_string rest))
      then EmptyString
      else String c (stem rest)
  end.

(** The spec's words: "replace the original name's trailing extension
    (last '.' + following non-dot characters at end of string) with the new
    one; if no extension exists, append it". *)
Definition renamed (ext name : string) : string := (stem name ++ ext)%string.

End Spec.

(** ** Reading a trace *)

Definition isEncode (e : Event) : bool :=
  match e with EvToDataURL _ _ => true | _ => false end.

Definition isDraw (e : Event) : bool :=
  match e with EvDrawImage _ _ => true | _ => false end.

(** The number of encode attempts, i.e. of passes through the loop body. *)
Definition encodeAttempts (t : list Event) : nat := List.length (filter isEncode t).

Definition rasterizations (t : list Event) : nat := List.length (filter isDraw t).

(** The quality of the last encode attempt. *)
Fixpoint lastAttempt (t : list Event) : option Q :=
  match t with
  | [] => None
  | e :: t' =>
      match lastAttempt t' with
      | Some q => Some q
      | None => match e with EvToDataURL _ q => Some q | _ => None end
      end
  end.

(** Every encode attempt of the trace used a quality satisfying [P]. *)
Definition attemptsSatisfy (P : Q -> Prop) (t : list Event) : Prop :=
  Forall (fun e => match e with EvToDataURL _ q => P q | _ => True end) t.

(** The header and the payload of a data URL, as the source splits it. *)
Definition headerOf (url : string) : string :=
  nth 0 (JS.split ","%char url) EmptyString.

Definition payloadOf (url : string) : string :=
  nth 1 (JS.split ","%char url) "undefined"%string.

(** The scale of the resizing branch of [planDimensions]. *)
Definition resizeScale (o : Options) (width height : Z) : Q :=
  JS.Math_min (maxShortSide o / inject_Z (shortSideOf width height))
              (maxLongSide o / inject_Z (longSideOf width height)).

(** The events of one pass of the loop that starts the fetch of [url]. *)
Definition passEvents (o : Options) (width height : Z) (quality : Q)
           (url : string) : list Event :=
  [EvDrawImage width height; EvToDataURL (mimeType o) quality; EvFetch url].

(** The test of the [while]: the blob is over the budget and the decremented
    quality is still above the floor. *)
Definition repeats (o : Options) (r : string * Z) (quality' : Q) : bool :=
  JS.gt (inject_Z (snd r)) (maxSizeBytes o) && JS.gt quality' (minQuality o).

(** What follows the decoding of the image: the loop, then the last stage. *)
Definition afterDecode (host : Host) (o : Options) (fuel : nat) (file : File)
           (img : HTMLImageElement) : M File :=
  let p := planDimensions o (img_width img) (img_height img) in
  let run := encodeLoop host o img (plan_width p) (plan_height p) fuel
                        (initialQuality o) in
  ([EvReadAsDataURL; EvLoadImage] ++ trace run
     ++ match outcome run with
        | Return r => trace (dataURLToFile host file (fst r))
        | _ => []
        end,
   match outcome run with
   | Return r => outcome (dataURLToFile host file (fst r))
   | Throw e => Throw e
   | OutOfFuel => OutOfFuel
   end).

(** The bound of the spec on the number of passes. *)
Definition passBound (o : Options) : Z :=
  Qceiling ((initialQuality o - minQuality o) / qualityStep o) + 1.

(** ** More readings of a trace *)

(** The qualities of the encode attempts, in order. *)
Fixpoint attemptQualities (t : list Event) : list Q :=
  match t with
  | [] => []
  | EvToDataURL _ q :: t' => q :: attemptQualities t'
  | _ :: t' => attemptQualities t'
  end.

(** [n] qualities from [q] downwards, [step] apart: what [quality -= qualityStep]
    goes through. *)
Fixpoint descending (step : Q) (n : nat) (q : Q) : list Q :=
  match n with
  | O => []
  | S n' => q :: descending step n' (q - step)
  end.

(** The quality after [n] decrements by [step] from [q]. *)
Fixpoint qualityAfter (A : Arith) (step : Q) (n : nat) (q : Q) : Q :=
  match n with
  | O => q
  | S n' => qualityAfter A step n' (arith_sub A q step)
  end.

(** What follows the decoding of the image, over any arithmetic. *)
Definition afterDecodeIn (A : Arith) (host : Host) (o : Options) (fuel : nat)
           (file : File) (img : HTMLImageElement) : M File :=
  let p := Generic.planDimensions A o (img_width img) (img_height img) in
  let run := Generic.encodeLoop A host o img (plan_width p) (plan_height p) fuel
                                (initialQuality o) in
  ([EvReadAsDataURL; EvLoadImage] ++ trace run
     ++ match outcome run with
        | Return r => trace (dataURLToFile host file (fst r))
        | _ => []
        end,
   match outcome run with
   | Return r => outcome (dataURLToFile host file (fst r))
   | Throw e => Throw e
   | OutOfFuel => OutOfFuel
   end).

(** [s.includes(c)] for one character. *)
Fixpoint hasChar (c : ascii) (s : string) : bool :=
  match s with
  | EmptyString => false
  | String c' rest => Ascii.eqb c' c || hasChar c rest
  end.

Fixpoint hasLineTerminator (s : string) : bool :=
  match s with
  | EmptyString => false
  | String c rest => JS.isLineTerminator c || hasLineTerminator rest
  end.

(** ** More sample browsers *)

Module SampleMore.

(** A browser whose [FileReader] fires 'error'. *)
Definition unreadable : Host :=
  {| readAsDataURL := fun _ => None;
     loadImage := loadImage (Sample.host 500 400 10);
     canvasToDataURL := canvasToDataURL (Sample.host 500 400 10);
     fetchBlobSize := fetchBlobSize (Sample.host 500 400 10);
     atob := atob (Sample.host 500 400 10) |}.

(** A browser whose [Image] fires 'error'. *)
Definition undecodable : Host :=
  {| readAsDataURL := readAsDataURL (Sample.host 500 400 10);
     loadImage := fun _ => None;
     canvasToDataURL := canvasToDataURL (Sample.host 500 400 10);
     fetchBlobSize := fetchBlobSize (Sample.host 500 400 10);
     atob := atob (Sample.host 500 400 10) |}.

(** A browser whose canvas throws once the quality is below [limit]. *)
Definition fragile (limit : Q) : Host :=
  {| readAsDataURL := readAsDataURL (Sample.host 3000 2000 10);
     loadImage := loadImage (Sample.host 3000 2000 10);
     canvasToDataURL := fun img w h mime q =>
       if Qle_bool limit q then Sample.canvas 10 img w h mime q else None;
     fetchBlobSize := fetchBlobSize (Sample.host 3000 2000 10);
     atob := atob (Sample.host 3000 2000 10) |}.

(** Ten bytes of budget and the given step and floor. *)
Definition options (mime : string) (floor step : Q) : Options :=
  {| maxLongSide := maxLongSide defaultOptions;
     maxShortSide := maxShortSide defaultOptions;
     maxSizeBytes := inject_Z 10;
     mimeType := mime;
     initialQuality := initialQuality defaultOptions;
     minQuality := floor;
     qualityStep := step |}.

End SampleMore.

(** ** The model-list route (the [GET] handler wrapped by [checkAuth])

    The handler's collaborators are outside this file: they are parameters
    here.  [ModelProvider.OpenRouter], [ChatErrorType.InternalServerError]
    and [AGENT_RUNTIME_ERROR_SET] are taken as they are imported; a call that
    can throw returns [inl] of the thrown value; [createErrorResponse] and
    [NextResponse.json] are the two constructors of [Response]; the calls and
    the console output are logged in order.  The handler is modelled from
    the [try] on: [params] has resolved to the provider. *)

Module Route.

Section Handler.

(** The fields of the JWT payload other than [apiKey]. *)
Variable Claims : Type.
Variable Runtime : Type.
Variable ModelList : Type.
(** A truthy [error] field of a thrown payload, and the payload's fields
    other than [errorType] and [error]. *)
Variable Content : Type.
Variable Extra : Type.

Variable OpenRouter : string.
Variable InternalServerError : string.
Variable AGENT_RUNTIME_ERROR_SET : string -> bool.

Record JwtPayload := mkJwt {
  apiKey : option string;
  claims : Claims
}.

(** The fields that the [catch] block reads off a thrown value: [None] is
    [undefined] for [errorType], and a missing or falsy value for [error]. *)
Record ErrorPayload := mkPayload {
  errorType : option string;
  errorContent : option Content;
  res : Extra
}.

(** What a [catch] receives: [null] or [undefined], which cannot be
    destructured, or a value with the fields above. *)
Inductive Thrown :=
| Nullish
| Value (e : ErrorPayload).

Record Env := mkEnv {
  createRuntime : option (JwtPayload -> Thrown + Runtime);
  initModelRuntimeWithUserPayload : string -> JwtPayload -> Thrown + Runtime;
  models : Runtime -> Thrown + ModelList
}.

Inductive Call :=
| CallCreateRuntime (payload : JwtPayload)
| CallInit (provider : string) (payload : JwtPayload)
| CallModels (runtime : Runtime)
| ConsoleWarn (provider type : string)
| ConsoleError (provider type : string).

(** [errorContent || e]. *)
Inductive ErrorField :=
| TheContent (c : Content)
| TheWhole (e : ErrorPayload).

Inductive Response :=
| JsonResponse (list : ModelList)
| ErrorResponse (type : string) (error : ErrorField) (rest : Extra)
                (provider : string).

(** How the handler ends: with a response, or with the [TypeError] of a
    destructuring that failed in the [catch] block. *)
Inductive Answer :=
| Responded (r : Response)
| Rejected.

(** A string that is neither [undefined] nor empty. *)
Definition truthy (s : option string) : bool :=
  match s with
  | Some (String _ _) => true
  | _ => false
  end.

(** [a || b] on optional strings. *)
Definition orElse (a b : option string) : option string :=
  if truthy a then a else b.

Definition noNeedAPIKey (provider : string) : bool :=
  existsb (fun p => String.eqb p provider) [OpenRouter].

(** Step 1 of the handler: the runtime. *)
Definition initRuntime (env : Env) (provider : string) (jwtPayload : JwtPayload)
  : list Call * (Thrown + Runtime) :=
  match createRuntime env with
  | Some create => ([CallCreateRuntime jwtPayload], create jwtPayload)
  | None =>
      let hasDefaultApiKey :=
        orElse (apiKey jwtPayload) (Some "dont-need-api-key-for-model-list"%string) in
      let payload :=
        {| apiKey := if noNeedAPIKey provider then hasDefaultApiKey
                     else apiKey jwtPayload;
           claims := claims jwtPayload |} in
      ([CallInit provider payload],
       initModelRuntimeWithUserPayload env provider payload)
  end.

(** The [catch] block. *)
Definition onError (provider : string) (thrown : Thrown) : list Call * Answer :=
  match thrown with
  | Nullish => ([], Rejected)
  | Value e =>
      let type := match errorType e with
                  | Some t => t
                  | None => InternalServerError
                  end in
      let error := match errorContent e with
                   | Some c => TheContent c
                   | None => TheWhole e
                   end in
      let log := if AGENT_RUNTIME_ERROR_SET type then ConsoleWarn
                 else ConsoleError in
      ([log provider type], Responded (ErrorResponse type error (res e) provider))
  end.

Definition GET (env : Env) (provider : string) (jwtPayload : JwtPayload)
  : list Call * Answer :=
  match initRuntime env provider jwtPayload with
  | (t, inl e) => (t ++ fst (onError provider e), snd (onError provider e))
  | (t, inr agentRuntime) =>
      match models env agentRuntime with
      | inl e => (t ++ CallModels agentRuntime :: fst (onError provider e),
                  snd (onError provider e))
      | inr list => (t ++ [CallModels agentRuntime], Responded (JsonResponse list))
      end
  end.

Definition isConsole (c : Call) : bool :=
  match c with
  | ConsoleWarn _ _ | ConsoleError _ _ => true
  | _ => false
  end.

Definition isInit (c : Call) : bool :=
  match c with
  | CallInit _ _ => true
  | _ => false
  end.

End Handler.

Arguments mkJwt {Claims} apiKey claims.
Arguments apiKey {Claims} j.
Arguments claims {Claims} j.
Arguments mkPayload {Content Extra} errorType errorContent res.
Arguments errorType {Content Extra} e.
Arguments errorContent {Content Extra} e.
Arguments res {Content Extra} e.
Arguments Nullish {Content Extra}.
Arguments Value {Content Extra} e.
Arguments mkEnv {Claims Runtime ModelList Content Extra}.
Arguments createRuntime {Claims Runtime ModelList Content Extra} e.
Arguments initModelRuntimeWithUserPayload {Claims Runtime ModelList Content Extra} e.
Arguments models {Claims Runtime ModelList Content Extra} e.
Arguments CallCreateRuntime {Claims Runtime} payload.
Arguments CallInit {Claims Runtime} provider payload.
Arguments CallModels {Claims Runtime} runtime.
Arguments ConsoleWarn {Claims Runtime} provider type.
Arguments ConsoleError {Claims Runtime} provider type.
Arguments TheContent {Content Extra} c.
Arguments TheWhole {Content Extra} e.
Arguments JsonResponse {ModelList Content Extra} list.
Arguments ErrorResponse {ModelList Content Extra} type error rest provider.
Arguments Responded {ModelList Content Extra} r.
Arguments Rejected {ModelList Content Extra}.
Arguments initRuntime {Claims Runtime ModelList Content Extra} OpenRouter env provider jwtPayload.
Arguments onError {Claims Runtime ModelList Content Extra} InternalServerError AGENT_RUNTIME_ERROR_SET provider thrown.
Arguments GET {Claims Runtime ModelList Content Extra} OpenRouter InternalServerError AGENT_RUNTIME_ERROR_SET env provider jwtPayload.
Arguments isConsole {Claims Runtime} c.
Arguments isInit {Claims Runtime} c.

(** A sample deployment: runtimes are numbers, model lists are lists of
    names; the runtime of a provider is made only with a non-empty key. *)
Definition sampleEnv : @Env unit nat (list string) string unit :=
  {| createRuntime := None;
     initModelRuntimeWithUserPayload := fun provider payload =>
       if truthy (apiKey payload) then inr 1%nat
       else inl (Value (mkPayload (Some "InvalidProviderAPIKey"%string) None tt));
     models := fun _ => inr ["some-model"%string] |}.

Definition sampleSet (type : string) : bool :=
  String.eqb type "InvalidProviderAPIKey".

(** A deployment whose [models] throws [undefined]. *)
Definition brokenEnv : @Env unit nat (list string) string unit :=
  {| createRuntime := None;
     initModelRuntimeWithUserPayload := fun _ _ => inr 1%nat;
     models := fun _ => inl Nullish |}.

End Route.

(** * Properties *)

Example scenario_A :
  let p := planDimensions defaultOptions 3000 2000 in
  (plan_width p, plan_height p) = (1152, 768).
Proof. vm_compute. reflexivity. Qed.

Example scenario_B :
  planDimensions defaultOptions 500 400 = mkPlan 1 500 400.
Proof. vm_compute. reflexivity. Qed.

Example spec_ext_webp : Spec.canonicalExtension "image/webp" = ".webp"%string.
Proof. reflexivity. Qed.

Example spec_renamed_examples :
  Spec.renamed ".webp" "photo.png" = "photo.webp"%string
  /\ Spec.renamed ".webp" "a.b.c" = "a.b.webp"%string
  /\ Spec.renamed ".webp" "photo" = "photo.webp"%string.
Proof. repeat split. Qed.

(** ** Numbers *)

Section Numbers.

Local Open Scope Q_scope.

Lemma gt_true (a b : Q) : JS.gt a b = true <-> b < a.
Proof.
  unfold JS.gt. rewrite negb_true_iff.
  split; intro H.
  - apply Qnot_le_lt. intro Hle. apply Qle_bool_iff in Hle. congruence.
  - destruct (Qle_bool a b) eqn:E; [|reflexivity].
    apply Qle_bool_iff in E. exfalso. exact (Qlt_not_le _ _ H E).
Qed.

Lemma gt_false (a b : Q) : JS.gt a b = false <-> a <= b.
Proof.
  unfold JS.gt. rewrite negb_false_iff. apply Qle_bool_iff.
Qed.

Lemma Math_min_le_l (a b : Q) : JS.Math_min a b <= a.
Proof.
  unfold JS.Math_min. destruct (Qle_bool a b) eqn:E.
  - apply Qle_refl.
  - apply Qlt_le_weak, gt_true. unfold JS.gt. now rewrite E.
Qed.

Lemma Math_min_le_r (a b : Q) : JS.Math_min a b <= b.
Proof.
  unfold JS.Math_min. destruct (Qle_bool a b) eqn:E.
  - now apply Qle_bool_iff.
  - apply Qle_refl.
Qed.

Lemma Math_min_cases (a b : Q) : JS.Math_min a b = a \/ JS.Math_min a b = b.
Proof. unfold JS.Math_min. destruct (Qle_bool a b); auto. Qed.

Lemma Math_round_mono (x y : Q) :
  x <= y -> (JS.Math_round x <= JS.Math_round y)%Z.
Proof. intro H. apply Qfloor_resp_le. lra. Qed.

Lemma Math_round_Z (z : Z) : JS.Math_round (inject_Z z) = z.
Proof.
  unfold JS.Math_round.
  apply Z.le_antisymm.
  - assert (H : inject_Z (Qfloor (inject_Z z + (1 # 2))) <= inject_Z z + (1 # 2))
      by apply Qfloor_le.
    assert (H' : inject_Z (Qfloor (inject_Z z + (1 # 2))) < inject_Z (z + 1)).
    { rewrite inject_Z_plus. change (inject_Z 1) with 1. lra. }
    rewrite <- Zlt_Qlt in H'. lia.
  - rewrite <- (Qfloor_Z z) at 1. apply Qfloor_resp_le. lra.
Qed.

(** Rounding moves a number by at most half a unit. *)
Lemma Math_round_lower (x : Q) : x - (1 # 2) < inject_Z (JS.Math_round x).
Proof.
  unfold JS.Math_round.
  pose proof (Qlt_floor (x + (1 # 2))) as H.
  rewrite inject_Z_plus in H. change (inject_Z 1) with 1 in H. lra.
Qed.

Lemma Math_round_upper (x : Q) : inject_Z (JS.Math_round x) <= x + (1 # 2).
Proof. unfold JS.Math_round. apply Qfloor_le. Qed.

Lemma Math_round_error (x : Q) : Qabs (inject_Z (JS.Math_round x) - x) <= 1 # 2.
Proof.
  apply Qabs_Qle_condition.
  pose proof (Math_round_lower x). pose proof (Math_round_upper x).
  split; lra.
Qed.


(** [x <= m / s] gives [s * x <= m] for a positive [s]. *)
Lemma le_div_mult (x m s : Q) : 0 < s -> x <= m / s -> s * x <= m.
Proof.
  intros Hs H.
  assert (E : s * (m / s) == m).
  { apply Qmult_div_r. intro E0. rewrite E0 in Hs. exact (Qlt_irrefl _ Hs). }
  rewrite <- E. apply Qmult_le_l; assumption.
Qed.

Lemma div_lt_one (m s : Q) : 0 < s -> m < s -> m / s < 1.
Proof.
  intros Hs H. apply Qlt_shift_div_r; [assumption|]. lra.
Qed.

End Numbers.

(** ** Dimension planning *)

Section Planner.

Variable o : Options.
Variables width height : Z.

Local Open Scope Q_scope.
Local Abbreviation resizeScale := (resizeScale o width height).

Lemma shortSideOf_min : shortSideOf width height = Z.min width height.
Proof. unfold shortSideOf. rewrite Z.geb_leb. destruct (Z.leb_spec width height); lia. Qed.

Lemma longSideOf_max : longSideOf width height = Z.max width height.
Proof. unfold longSideOf. rewrite Z.geb_leb. destruct (Z.leb_spec width height); lia. Qed.

Lemma needsResize_true :
  needsResize o width height = true <->
  maxShortSide o < inject_Z (shortSideOf width height)
  \/ maxLongSide o < inject_Z (longSideOf width height).
Proof. unfold needsResize. rewrite orb_true_iff, !gt_true. tauto. Qed.

Lemma needsResize_false :
  needsResize o width height = false <->
  inject_Z (shortSideOf width height) <= maxShortSide o
  /\ inject_Z (longSideOf width height) <= maxLongSide o.
Proof. unfold needsResize. rewrite orb_false_iff, !gt_false. tauto. Qed.

Lemma planDimensions_resize :
  needsResize o width height = true ->
  planDimensions o width height =
  {| plan_scale := resizeScale;
     plan_width := JS.Math_round (inject_Z width * resizeScale);
     plan_height := JS.Math_round (inject_Z height * resizeScale) |}.
Proof. intro H. unfold planDimensions. now rewrite H. Qed.

Lemma planDimensions_keep :
  needsResize o width height = false ->
  planDimensions o width height = mkPlan 1 width height.
Proof. intro H. unfold planDimensions. now rewrite H. Qed.

Hypothesis width_pos : (0 < width)%Z.
Hypothesis height_pos : (0 < height)%Z.

Lemma shortSide_pos : 0 < inject_Z (shortSideOf width height).
Proof.
  rewrite shortSideOf_min. change 0 with (inject_Z 0). rewrite <- Zlt_Qlt. lia.
Qed.

Lemma longSide_pos : 0 < inject_Z (longSideOf width height).
Proof.
  rewrite longSideOf_max. change 0 with (inject_Z 0). rewrite <- Zlt_Qlt. lia.
Qed.

Lemma short_scaled_le :
  inject_Z (shortSideOf width height) * resizeScale <= maxShortSide o.
Proof. apply le_div_mult; [apply shortSide_pos | apply Math_min_le_l]. Qed.

Lemma long_scaled_le :
  inject_Z (longSideOf width height) * resizeScale <= maxLongSide o.
Proof. apply le_div_mult; [apply longSide_pos | apply Math_min_le_r]. Qed.

(** In the resizing branch the scale is below 1. *)
Lemma resizeScale_lt_1 :
  needsResize o width height = true -> resizeScale < 1.
Proof.
  intro H. apply needsResize_true in H. destruct H as [H | H].
  - apply Qle_lt_trans with (maxShortSide o / inject_Z (shortSideOf width height)).
    + apply Math_min_le_l.
    + apply div_lt_one; [apply shortSide_pos | exact H].
  - apply Qle_lt_trans with (maxLongSide o / inject_Z (longSideOf width height)).
    + apply Math_min_le_r.
    + apply div_lt_one; [apply longSide_pos | exact H].
Qed.

(** A side no longer than the long side stays below the long-side limit
    after scaling, when that limit is not negative. *)
Lemma side_scaled_le (x : Z) :
  (0 < x <= longSideOf width height)%Z -> 0 <= maxLongSide o ->
  inject_Z x * resizeScale <= maxLongSide o.
Proof.
  intros [Hx Hxl] Hml.
  pose proof long_scaled_le as HL.
  rewrite Zlt_Qlt in Hx. rewrite Zle_Qle in Hxl. change (inject_Z 0) with 0 in Hx.
  destruct (Qlt_le_dec resizeScale 0) as [Hneg | Hpos].
  - apply Qle_trans with 0; [|assumption].
    setoid_replace 0 with (inject_Z x * 0) by ring.
    apply Qmult_le_l; [assumption | now apply Qlt_le_weak].
  - apply Qle_trans with (inject_Z (longSideOf width height) * resizeScale);
      [|assumption].
    apply Qmult_le_compat_r; assumption.
Qed.

End Planner.

(** C3: an image within both limits is planned with scale 1 and its own
    dimensions; and for every image (with positive dimensions) the planned
    width and height never exceed the original ones. *)
Theorem within_limits_keeps_dimensions (o : Options) (width height : Z) :
  ((inject_Z (shortSideOf width height) <= maxShortSide o)%Q ->
   (inject_Z (longSideOf width height) <= maxLongSide o)%Q ->
   planDimensions o width height = mkPlan 1 width height)
  /\ (0 < width -> 0 < height ->
      plan_width (planDimensions o width height) <= width
      /\ plan_height (planDimensions o width height) <= height).
Proof.
  split.
  - intros Hs Hl. apply planDimensions_keep.
    apply needsResize_false. split; assumption.
  - intros Hw Hh.
    destruct (needsResize o width height) eqn:E.
    + rewrite planDimensions_resize by assumption. cbn [plan_width plan_height].
      pose proof (resizeScale_lt_1 o width height Hw Hh E) as Hlt.
      assert (Hshrink : forall x : Z, 0 < x ->
                JS.Math_round (inject_Z x * resizeScale o width height) <= x).
      { intros x Hx. rewrite <- (Math_round_Z x) at 2.
        apply Math_round_mono.
        rewrite Zlt_Qlt in Hx. change (inject_Z 0) with 0%Q in Hx.
        setoid_replace (inject_Z x) with (inject_Z x * 1)%Q at 2 by ring.
        apply Qmult_le_l; [assumption | now apply Qlt_le_weak]. }
      split; apply Hshrink; assumption.
    + rewrite planDimensions_keep by assumption. cbn. lia.
Qed.

Lemma within_limits_keeps_dimensions_witness :
  planDimensions defaultOptions 500 400 = mkPlan 1 500 400
  /\ plan_width (planDimensions defaultOptions 3000 2000) <= 3000
  /\ plan_height (planDimensions defaultOptions 3000 2000) <= 2000.
Proof.
  split.
  - apply (proj1 (within_limits_keeps_dimensions defaultOptions 500 400));
      vm_compute; discriminate.
  - apply (proj2 (within_limits_keeps_dimensions defaultOptions 3000 2000));
      reflexivity.
Defined.

Lemma resizeScale_Qmin (o : Options) (ms ml width height : Z) :
  (maxShortSide o == inject_Z ms)%Q ->
  (maxLongSide o == inject_Z ml)%Q ->
  (resizeScale o width height
   == Qmin (inject_Z ms / inject_Z (Z.min width height))
           (inject_Z ml / inject_Z (Z.max width height)))%Q.
Proof.
  intros Hms Hml. unfold resizeScale.
  rewrite shortSideOf_min, longSideOf_max.
  assert (Ea : (maxShortSide o / inject_Z (Z.min width height)
                == inject_Z ms / inject_Z (Z.min width height))%Q)
    by now rewrite Hms.
  assert (Eb : (maxLongSide o / inject_Z (Z.max width height)
                == inject_Z ml / inject_Z (Z.max width height))%Q)
    by now rewrite Hml.
  rewrite <- Ea, <- Eb.
  set (a := (maxShortSide o / inject_Z (Z.min width height))%Q).
  set (b := (maxLongSide o / inject_Z (Z.max width height))%Q).
  unfold JS.Math_min. destruct (Qle_bool a b) eqn:E.
  - apply Qle_bool_iff in E. symmetry. now apply Q.min_l.
  - symmetry. apply Q.min_r. apply Qlt_le_weak. apply gt_true.
    unfold JS.gt. now rewrite E.
Qed.

(** C2: when the smaller side exceeds [maxShortSide] or the larger side
    exceeds [maxLongSide] (integer limits, as the data model declares them,
    the long-side limit not negative), the smaller planned side is at most
    [maxShortSide] and the larger planned side at most [maxLongSide]; each
    planned dimension is within half a pixel of the original one times the
    common scale [s = min (maxShortSide / short, maxLongSide / long)], so
    that the planned rectangle has the aspect ratio of the original up to
    that rounding: [2 * |w' * h - h' * w| <= w + h]. *)
Theorem resize_respects_limits (o : Options) (ms ml width height : Z)
  (Hms : (maxShortSide o == inject_Z ms)%Q)
  (Hml : (maxLongSide o == inject_Z ml)%Q)
  (Hml0 : 0 <= ml)
  (Hw : 0 < width) (Hh : 0 < height)
  (Hexceeds : ms < Z.min width height \/ ml < Z.max width height) :
  let p := planDimensions o width height in
  let s := Qmin (inject_Z ms / inject_Z (Z.min width height))
                (inject_Z ml / inject_Z (Z.max width height)) in
  Z.min (plan_width p) (plan_height p) <= ms
  /\ Z.max (plan_width p) (plan_height p) <= ml
  /\ (Qabs (inject_Z (plan_width p) - inject_Z width * s) <= 1 # 2)%Q
  /\ (Qabs (inject_Z (plan_height p) - inject_Z height * s) <= 1 # 2)%Q
  /\ 2 * Z.abs (plan_width p * height - plan_height p * width) <= width + height.
Proof.
  assert (E : needsResize o width height = true).
  { apply needsResize_true.
    rewrite shortSideOf_min, longSideOf_max, Hms, Hml, <- !Zlt_Qlt.
    exact Hexceeds. }
  pose proof (resizeScale_Qmin o ms ml width height Hms Hml) as Hs.
  cbv zeta. rewrite planDimensions_resize by assumption.
  cbn [plan_width plan_height plan_scale].
  rewrite <- Hs.
  set (s := resizeScale o width height).
  pose proof (short_scaled_le o width height Hw Hh) as HS. fold s in HS.
  assert (Hside : forall x : Z, 0 < x <= longSideOf width height ->
            JS.Math_round (inject_Z x * s) <= ml).
  { intros x Hx. rewrite <- (Math_round_Z ml). apply Math_round_mono.
    rewrite <- Hml. apply side_scaled_le; try assumption.
    rewrite Hml. change 0%Q with (inject_Z 0). now rewrite <- Zle_Qle. }
  assert (Hshort : JS.Math_round (inject_Z (shortSideOf width height) * s) <= ms).
  { rewrite <- (Math_round_Z ms). apply Math_round_mono. now rewrite <- Hms. }
  rewrite longSideOf_max in Hside. rewrite shortSideOf_min in Hshort.
  split; [|split; [|split; [|split]]].
  - destruct (Z.le_ge_cases width height) as [Hle | Hge].
    + rewrite Z.min_l in Hshort by assumption. lia.
    + rewrite Z.min_r in Hshort by assumption. lia.
  - assert (JS.Math_round (inject_Z width * s) <= ml) by (apply Hside; lia).
    assert (JS.Math_round (inject_Z height * s) <= ml) by (apply Hside; lia).
    lia.
  - apply Math_round_error.
  - apply Math_round_error.
  - pose proof (Math_round_lower (inject_Z width * s)) as Hwl.
    pose proof (Math_round_upper (inject_Z width * s)) as Hwu.
    pose proof (Math_round_lower (inject_Z height * s)) as Hhl.
    pose proof (Math_round_upper (inject_Z height * s)) as Hhu.
    set (w' := JS.Math_round (inject_Z width * s)) in *.
    set (h' := JS.Math_round (inject_Z height * s)) in *.
    rewrite Zlt_Qlt in Hw, Hh. change (inject_Z 0) with 0%Q in Hw, Hh.
    assert (Hq : (- (inject_Z width + inject_Z height)
                  <= 2 * (inject_Z w' * inject_Z height - inject_Z h' * inject_Z width)
                  <= inject_Z width + inject_Z height)%Q).
    { set (a := (inject_Z w' - inject_Z width * s)%Q).
      set (b := (inject_Z h' - inject_Z height * s)%Q).
      assert (Ha : (- (1 # 2) <= a <= 1 # 2)%Q) by (unfold a; split; lra).
      assert (Hb : (- (1 # 2) <= b <= 1 # 2)%Q) by (unfold b; split; lra).
      assert (Eq : (inject_Z w' * inject_Z height - inject_Z h' * inject_Z width
                    == a * inject_Z height - b * inject_Z width)%Q)
        by (unfold a, b; ring).
      rewrite Eq.
      assert (Hah : (- (1 # 2) * inject_Z height <= a * inject_Z height
                     <= (1 # 2) * inject_Z height)%Q).
      { split; apply Qmult_le_compat_r; try apply Ha; now apply Qlt_le_weak. }
      assert (Hbw : (- (1 # 2) * inject_Z width <= b * inject_Z width
                     <= (1 # 2) * inject_Z width)%Q).
      { split; apply Qmult_le_compat_r; try apply Hb; now apply Qlt_le_weak. }
      split; lra. }
    destruct Hq as [Hlo Hhi].
    assert (Hz : - (width + height) <= 2 * (w' * height - h' * width)
                 <= width + height).
    { unfold Z.sub. split; rewrite Zle_Qle;
        repeat first [ rewrite inject_Z_mult | rewrite inject_Z_plus
                     | rewrite inject_Z_opp ];
        change (inject_Z 2) with 2%Q; lra. }
    lia.
Qed.

Lemma resize_respects_limits_witness :
  let p := planDimensions defaultOptions 3000 2000 in
  let s := Qmin (inject_Z 768 / inject_Z (Z.min 3000 2000))
                (inject_Z 1568 / inject_Z (Z.max 3000 2000)) in
  Z.min (plan_width p) (plan_height p) <= 768
  /\ Z.max (plan_width p) (plan_height p) <= 1568
  /\ (Qabs (inject_Z (plan_width p) - inject_Z 3000 * s) <= 1 # 2)%Q
  /\ (Qabs (inject_Z (plan_height p) - inject_Z 2000 * s) <= 1 # 2)%Q
  /\ 2 * Z.abs (plan_width p * 2000 - plan_height p * 3000) <= 3000 + 2000.
Proof.
  apply (resize_respects_limits defaultOptions 768 1568 3000 2000).
  - reflexivity.
  - reflexivity.
  - lia.
  - lia.
  - lia.
  - left. vm_compute. reflexivity.
Defined.


Example extreme_aspect_ratio_plan :
  let p := planDimensions defaultOptions 10000 1 in
  (plan_width p, plan_height p) = (1568, 0).
Proof. vm_compute. reflexivity. Qed.



(** The same images in exact arithmetic and in doubles: the plans differ
    where the exact product is half an integer. *)
Example plans_in_doubles :
  let o := Binary64.options defaultOptions in
  let plan A w h := (plan_width (Generic.planDimensions A o w h),
                     plan_height (Generic.planDimensions A o w h)) in
  plan Binary64.arith 3000 2000 = (1152, 768)
  /\ plan Binary64.arith 10000 1 = (1568, 0)
  /\ plan exact 2790 5760 = (760, 1568)
  /\ plan Binary64.arith 2790 5760 = (759, 1568)
  /\ plan exact 49 153664 = (1, 1568)
  /\ plan Binary64.arith 49 153664 = (0, 1568).
Proof. vm_compute. repeat split. Qed.

(** ** Computations and their traces *)

Section Computations.

Context {A B : Type}.

Lemma M_eta (m : M A) : m = (trace m, outcome m).
Proof. now destruct m. Qed.

Lemma bind_Return (t : list Event) (a : A) (k : A -> M B) :
  bind (t, Return a) k = (t ++ trace (k a), outcome (k a)).
Proof. cbn. now destruct (k a). Qed.

Lemma trace_bind (m : M A) (k : A -> M B) :
  trace (bind m k) =
  trace m ++ match outcome m with Return a => trace (k a) | _ => [] end.
Proof.
  destruct m as [t [a | e | ]]; cbn.
  - now destruct (k a).
  - now rewrite app_nil_r.
  - now rewrite app_nil_r.
Qed.

Lemma outcome_bind (m : M A) (k : A -> M B) :
  outcome (bind m k) =
  match outcome m with
  | Return a => outcome (k a)
  | Throw e => Throw e
  | OutOfFuel => OutOfFuel
  end.
Proof. destruct m as [t [a | e | ]]; cbn; trivial. now destruct (k a). Qed.

End Computations.

Section Traces.

Lemma encodeAttempts_app (t1 t2 : list Event) :
  encodeAttempts (t1 ++ t2) = (encodeAttempts t1 + encodeAttempts t2)%nat.
Proof. unfold encodeAttempts. now rewrite filter_app, length_app. Qed.

Lemma rasterizations_app (t1 t2 : list Event) :
  rasterizations (t1 ++ t2) = (rasterizations t1 + rasterizations t2)%nat.
Proof. unfold rasterizations. now rewrite filter_app, length_app. Qed.

Lemma lastAttempt_app (t1 t2 : list Event) :
  lastAttempt (t1 ++ t2) =
  match lastAttempt t2 with Some q => Some q | None => lastAttempt t1 end.
Proof.
  induction t1 as [| e t1 IH]; cbn.
  - now destruct (lastAttempt t2).
  - rewrite IH. now destruct (lastAttempt t2).
Qed.

Lemma attemptsSatisfy_app (P : Q -> Prop) (t1 t2 : list Event) :
  attemptsSatisfy P (t1 ++ t2) <-> attemptsSatisfy P t1 /\ attemptsSatisfy P t2.
Proof. apply Forall_app. Qed.

Lemma attemptsSatisfy_impl (P R : Q -> Prop) (t : list Event) :
  (forall q, P q -> R q) -> attemptsSatisfy P t -> attemptsSatisfy R t.
Proof.
  intros H. apply Forall_impl. intros [] ; auto.
Qed.

End Traces.

(** ** One pass and the loop *)

Section Loop.

Variable host : Host.
Variable o : Options.
Variable img : HTMLImageElement.
Variables width height : Z.

Local Open Scope Q_scope.

Local Abbreviation once := (encodeOnce host img width height (mimeType o)).
Local Abbreviation loop := (encodeLoop host o img width height).
Local Abbreviation canvas := (canvasToDataURL host img width height (mimeType o)).

Lemma encodeOnce_cases (quality : Q) :
  once quality =
  match canvas quality with
  | None => ([EvDrawImage width height; EvToDataURL (mimeType o) quality],
             Throw CanvasError)
  | Some url =>
      match fetchBlobSize host url with
      | None => (passEvents o width height quality url, Throw FetchError)
      | Some size => (passEvents o width height quality url, Return (url, size))
      end
  end.
Proof.
  unfold encodeOnce.
  destruct (canvasToDataURL host img width height (mimeType o) quality) as [url|];
    [|reflexivity].
  cbn. destruct (fetchBlobSize host url); reflexivity.
Qed.

Lemma encodeOnce_attempts (quality : Q) :
  encodeAttempts (trace (once quality)) = 1%nat
  /\ rasterizations (trace (once quality)) = 1%nat
  /\ lastAttempt (trace (once quality)) = Some quality.
Proof.
  rewrite encodeOnce_cases.
  destruct (canvas quality) as [url|]; [destruct (fetchBlobSize host url)|];
    repeat split.
Qed.

Lemma encodeOnce_satisfy (P : Q -> Prop) (quality : Q) :
  P quality -> attemptsSatisfy P (trace (once quality)).
Proof.
  intro H. rewrite encodeOnce_cases.
  destruct (canvas quality) as [url|]; [destruct (fetchBlobSize host url)|];
    repeat constructor; assumption.
Qed.

Lemma encodeOnce_Return (quality : Q) (r : string * Z) :
  outcome (once quality) = Return r <->
  canvas quality = Some (fst r) /\ fetchBlobSize host (fst r) = Some (snd r).
Proof.
  rewrite encodeOnce_cases.
  destruct (canvas quality) as [url|].
  - destruct (fetchBlobSize host url) as [size|] eqn:E; cbn.
    + split.
      * intro H. injection H as <-. cbn. auto.
      * intros [H1 H2]. injection H1 as ->. rewrite E in H2.
        injection H2 as ->. now destruct r.
    + split; [discriminate|]. intros [H1 H2]. injection H1 as ->. congruence.
  - cbn. split; [discriminate | intros [H _]; discriminate].
Qed.

Lemma encodeOnce_fuel (quality : Q) : outcome (once quality) <> OutOfFuel.
Proof.
  rewrite encodeOnce_cases.
  destruct (canvas quality) as [url|]; [destruct (fetchBlobSize host url)|];
    discriminate.
Qed.

Lemma repeats_true (r : string * Z) (quality' : Q) :
  repeats o r quality' = true <->
  maxSizeBytes o < inject_Z (snd r) /\ minQuality o < quality'.
Proof. unfold repeats. now rewrite andb_true_iff, !gt_true. Qed.

(** The loop, one pass unfolded. *)
Lemma encodeLoop_step (fuel : nat) (quality : Q) :
  loop fuel quality =
  match outcome (once quality) with
  | Return r =>
      if repeats o r (quality - qualityStep o) then
        match fuel with
        | O => (trace (once quality), OutOfFuel)
        | S fuel' =>
            (trace (once quality) ++ trace (loop fuel' (quality - qualityStep o)),
             outcome (loop fuel' (quality - qualityStep o)))
        end
      else (trace (once quality), Return r)
  | Throw e => (trace (once quality), Throw e)
  | OutOfFuel => (trace (once quality), OutOfFuel)
  end.
Proof.
  assert (E : loop fuel quality =
              bind (once quality) (fun r =>
                if repeats o r (quality - qualityStep o)
                then match fuel with
                     | O => outOfFuel
                     | S fuel' => loop fuel' (quality - qualityStep o)
                     end
                else ret r))
    by (destruct fuel; reflexivity).
  rewrite E, (M_eta (once quality)) at 1.
  destruct (outcome (once quality)) as [r | e |]; try reflexivity.
  rewrite bind_Return.
  destruct (repeats o r (quality - qualityStep o)).
  - destruct fuel; cbn; [now rewrite app_nil_r | reflexivity].
  - cbn. now rewrite app_nil_r.
Qed.

(** The loop body runs at least once; when it ran [k] more times, the
    quality after [k] decrements was above the floor. *)
Lemma encodeLoop_attempts (fuel : nat) (quality : Q) :
  exists k : nat,
    encodeAttempts (trace (loop fuel quality)) = S k
    /\ rasterizations (trace (loop fuel quality)) = S k
    /\ (k = 0%nat
        \/ minQuality o < quality - inject_Z (Z.of_nat k) * qualityStep o).
Proof.
  revert quality. induction fuel as [| fuel IH]; intro quality;
    rewrite encodeLoop_step;
    destruct (encodeOnce_attempts quality) as (Ha & Hr & _);
    destruct (outcome (once quality)) as [r | e |];
    try solve [exists 0%nat; cbn [trace fst]; auto].
  - destruct (repeats o r (quality - qualityStep o));
      exists 0%nat; cbn [trace fst]; auto.
  - destruct (repeats o r (quality - qualityStep o)) eqn:E;
      [| exists 0%nat; cbn [trace fst]; auto].
    apply repeats_true in E. destruct E as [_ Hq].
    destruct (IH (quality - qualityStep o)) as (k & Hk & Hk' & Hinv).
    exists (S k). cbn [trace fst].
    rewrite encodeAttempts_app, rasterizations_app, Ha, Hr, Hk, Hk'.
    repeat split. right.
    rewrite Nat2Z.inj_succ. unfold Z.succ. rewrite inject_Z_plus.
    change (inject_Z 1) with 1.
    destruct Hinv as [-> | Hinv].
    + change (inject_Z (Z.of_nat 0)) with 0. lra.
    + lra.
Qed.

(** With a positive step the loop ends once [fuel + 1] decrements reach the
    floor. *)
Lemma encodeLoop_ends (fuel : nat) (quality : Q) :
  0 < qualityStep o ->
  quality - inject_Z (Z.of_nat (S fuel)) * qualityStep o <= minQuality o ->
  outcome (loop fuel quality) <> OutOfFuel.
Proof.
  intro Hstep. revert quality.
  induction fuel as [| fuel IH]; intros quality Hfuel;
    rewrite encodeLoop_step;
    pose proof (encodeOnce_fuel quality) as Hno;
    destruct (outcome (once quality)) as [r | e |];
    try discriminate; try contradiction.
  - destruct (repeats o r (quality - qualityStep o)) eqn:E; [|discriminate].
    apply repeats_true in E. destruct E as [_ Hq].
    change (inject_Z (Z.of_nat 1)) with 1 in Hfuel. lra.
  - destruct (repeats o r (quality - qualityStep o)) eqn:E; [|discriminate].
    cbn [outcome snd]. apply IH.
    rewrite Nat2Z.inj_succ in Hfuel. unfold Z.succ in Hfuel.
    rewrite inject_Z_plus in Hfuel. change (inject_Z 1) with 1 in Hfuel.
    lra.
Qed.

(** Every attempt after the first uses a quality above the floor. *)
Lemma encodeLoop_qualities (fuel : nat) (quality : Q) :
  attemptsSatisfy (fun q => q = quality \/ minQuality o < q)
                  (trace (loop fuel quality)).
Proof.
  revert quality. induction fuel as [| fuel IH]; intro quality;
    rewrite encodeLoop_step;
    pose proof (encodeOnce_satisfy
                  (fun q => q = quality \/ minQuality o < q) quality
                  (or_introl eq_refl)) as Hone;
    destruct (outcome (once quality)) as [r | e |]; try exact Hone.
  - destruct (repeats o r (quality - qualityStep o)); exact Hone.
  - destruct (repeats o r (quality - qualityStep o)) eqn:E; [|exact Hone].
    apply repeats_true in E. destruct E as [_ Hq].
    cbn [trace fst]. apply attemptsSatisfy_app. split; [exact Hone|].
    eapply attemptsSatisfy_impl; [|apply IH].
    intros q [-> | H]; right; assumption.
Qed.


(** What the loop returns is what the canvas produced at the quality of the
    last attempt. *)
Lemma encodeLoop_returns_last (fuel : nat) (quality : Q) (r : string * Z) :
  outcome (loop fuel quality) = Return r ->
  exists last : Q,
    lastAttempt (trace (loop fuel quality)) = Some last
    /\ canvas last = Some (fst r)
    /\ fetchBlobSize host (fst r) = Some (snd r)
    /\ (last = quality \/ minQuality o < last)
    /\ (inject_Z (snd r) <= maxSizeBytes o
        \/ last - qualityStep o <= minQuality o).
Proof.
  revert quality. induction fuel as [| fuel IH]; intro quality;
    rewrite encodeLoop_step;
    destruct (encodeOnce_attempts quality) as (_ & _ & Hl);
    destruct (outcome (once quality)) as [r0 | e |] eqn:Eo;
    try discriminate.
  - destruct (repeats o r0 (quality - qualityStep o)) eqn:E; [discriminate|].
    cbn [outcome trace fst snd]. intro H. injection H as <-.
    apply encodeOnce_Return in Eo. destruct Eo as [Hc Hf].
    exists quality. repeat split; auto.
    unfold repeats in E. apply andb_false_iff in E.
    rewrite !gt_false in E. exact E.
  - destruct (repeats o r0 (quality - qualityStep o)) eqn:E.
    + cbn [outcome trace fst snd]. intro H.
      apply repeats_true in E. destruct E as [_ Hq].
      destruct (IH _ H) as (last & Hlast & Hc & Hf & Hrange & Hstop).
      exists last. rewrite lastAttempt_app, Hlast.
      repeat split; auto.
      right. destruct Hrange as [-> | Hrange]; assumption.
    + cbn [outcome trace fst snd]. intro H. injection H as <-.
      apply encodeOnce_Return in Eo. destruct Eo as [Hc Hf].
      exists quality. repeat split; auto.
      unfold repeats in E. apply andb_false_iff in E.
      rewrite !gt_false in E. exact E.
Qed.

(** When every attempt succeeds, the loop does not throw. *)
Lemma encodeLoop_no_throw (fuel : nat) (quality : Q) :
  (forall q, q = quality \/ minQuality o < q ->
     exists url size, canvas q = Some url /\ fetchBlobSize host url = Some size) ->
  forall e, outcome (loop fuel quality) <> Throw e.
Proof.
  revert quality. induction fuel as [| fuel IH]; intros quality Hok e;
    rewrite encodeLoop_step;
    destruct (Hok quality (or_introl eq_refl)) as (url & size & Hc & Hf);
    assert (Eo : outcome (once quality) = Return (url, size))
      by (apply encodeOnce_Return; auto);
    rewrite Eo.
  - destruct (repeats o (url, size) (quality - qualityStep o)); discriminate.
  - destruct (repeats o (url, size) (quality - qualityStep o)) eqn:E;
      [|discriminate].
    cbn [outcome snd]. apply IH.
    apply repeats_true in E. destruct E as [_ Hq].
    intros q [-> | Hq']; apply Hok; right; assumption.
Qed.

End Loop.

(** ** The whole function *)

Section Whole.

Variable host : Host.
Variable o : Options.
Variable fuel : nat.
Variable file : File.

(** The last stage either throws on a data URL it cannot split, or calls
    [atob] once. *)
Lemma dataURLToFile_cases (url : string) :
  dataURLToFile host file url =
  match JS.matchColonGroup (headerOf url) with
  | None => ([], Throw NullMatchError)
  | Some outMime =>
      match atob host (payloadOf url) with
      | None => ([EvAtob], Throw AtobError)
      | Some bstr =>
          ([EvAtob],
           Return {| file_bits := list_byte_of_string bstr;
                     file_name := JS.replaceTrailingExt ".webp" (file_name file);
                     file_type := outMime |})
      end
  end.
Proof.
  unfold dataURLToFile, headerOf, payloadOf.
  destruct (JS.matchColonGroup (nth 0 (JS.split "," url) EmptyString));
    [|reflexivity].
  cbn. destruct (atob host (nth 1 (JS.split "," url) "undefined"%string));
    reflexivity.
Qed.

Lemma dataURLToFile_trace (url : string) :
  encodeAttempts (trace (dataURLToFile host file url)) = 0%nat
  /\ rasterizations (trace (dataURLToFile host file url)) = 0%nat
  /\ lastAttempt (trace (dataURLToFile host file url)) = None
  /\ forall P, attemptsSatisfy P (trace (dataURLToFile host file url)).
Proof.
  rewrite dataURLToFile_cases.
  destruct (JS.matchColonGroup (headerOf url));
    [destruct (atob host (payloadOf url))|];
    repeat split; intros; repeat constructor.
Qed.

Lemma dataURLToFile_fuel (url : string) :
  outcome (dataURLToFile host file url) <> OutOfFuel.
Proof.
  rewrite dataURLToFile_cases.
  destruct (JS.matchColonGroup (headerOf url));
    [destruct (atob host (payloadOf url))|]; discriminate.
Qed.

Lemma compress_not_image :
  JS.startsWith (file_type file) "image/" = false ->
  compressImageFileWithLimit host o fuel file = ([], Return file).
Proof. intro H. unfold compressImageFileWithLimit. now rewrite H. Qed.

Lemma compress_image :
  JS.startsWith (file_type file) "image/" = true ->
  compressImageFileWithLimit host o fuel file =
  match readAsDataURL host file with
  | None => ([EvReadAsDataURL], Throw FileReaderError)
  | Some dataURL =>
      match loadImage host dataURL with
      | None => ([EvReadAsDataURL; EvLoadImage], Throw ImageLoadError)
      | Some img => afterDecode host o fuel file img
      end
  end.
Proof.
  intro H. unfold compressImageFileWithLimit, fileToDataURL, dataURLToImage.
  rewrite H. cbn [negb].
  destruct (readAsDataURL host file) as [dataURL|]; [|reflexivity].
  cbn. destruct (loadImage host dataURL) as [img|]; [|reflexivity].
  cbn. unfold afterDecode. cbv zeta.
  set (run := encodeLoop host o img _ _ fuel (initialQuality o)).
  rewrite (M_eta run) at 1.
  destruct (outcome run) as [r | e |]; cbn.
  - destruct (dataURLToFile host file (fst r)) as [t' r']. reflexivity.
  - now rewrite app_nil_r.
  - now rewrite app_nil_r.
Qed.

End Whole.

(** C6: a file whose declared type does not start with "image/" is returned
    as it is (the same bytes, name and type), and no browser facility is
    called: no read, no decode, no rasterization, no encoding. *)
Theorem non_image_passes_through (host : Host) (o : Options) (fuel : nat)
  (file : File) :
  JS.startsWith (file_type file) "image/" = false ->
  compressImageFileWithLimit host o fuel file = ([], Return file).
Proof. apply compress_not_image. Qed.

Lemma non_image_passes_through_witness :
  compressImageFileWithLimit (Sample.host 3000 2000 10) defaultOptions 0
                             Sample.report
  = ([], Return Sample.report).
Proof.
  apply (non_image_passes_through (Sample.host 3000 2000 10) defaultOptions 0
                                  Sample.report).
  reflexivity.
Defined.

(** C1: with a positive quality step and a floor below the initial quality,
    the loop body (one rasterization and one encode attempt per pass) runs at
    most [ceil ((initialQuality - minQuality) / qualityStep) + 1] times,
    whatever the browser answers; and the loop does end: with fuel for that
    many repetitions the run is never cut short. *)
Theorem loop_passes_bounded (host : Host) (o : Options) (fuel : nat)
  (file : File)
  (Hstep : (0 < qualityStep o)%Q)
  (Hfloor : (minQuality o < initialQuality o)%Q) :
  let run := compressImageFileWithLimit host o fuel file in
  Z.of_nat (encodeAttempts (trace run)) <= passBound o
  /\ Z.of_nat (rasterizations (trace run)) <= passBound o
  /\ (passBound o <= Z.of_nat fuel -> outcome run <> OutOfFuel).
Proof.
  cbv zeta. unfold passBound.
  set (x := ((initialQuality o - minQuality o) / qualityStep o)%Q).
  assert (Hx : (0 < x)%Q).
  { unfold x. apply Qlt_shift_div_l; [assumption | lra]. }
  assert (Hceil : 1 <= Qceiling x).
  { pose proof (Qle_ceiling x) as Hc.
    assert (H0 : (inject_Z 0 < inject_Z (Qceiling x))%Q)
      by (change (inject_Z 0) with 0%Q; lra).
    rewrite <- Zlt_Qlt in H0. lia. }
  destruct (JS.startsWith (file_type file) "image/") eqn:Eimg.
  2: { rewrite compress_not_image by assumption. cbn.
       repeat split; try lia. discriminate. }
  rewrite compress_image by assumption.
  destruct (readAsDataURL host file) as [dataURL|].
  2: { cbn. repeat split; try lia. discriminate. }
  destruct (loadImage host dataURL) as [img|].
  2: { cbn. repeat split; try lia. discriminate. }
  unfold afterDecode. cbv zeta.
  set (p := planDimensions o (img_width img) (img_height img)).
  set (run := encodeLoop host o img (plan_width p) (plan_height p) fuel
                         (initialQuality o)).
  cbn [trace outcome fst snd].
  assert (Htail : forall tail,
            encodeAttempts tail = 0%nat -> rasterizations tail = 0%nat ->
            Z.of_nat (encodeAttempts ([EvReadAsDataURL; EvLoadImage] ++ trace run ++ tail))
            <= Qceiling x + 1
            /\ Z.of_nat (rasterizations ([EvReadAsDataURL; EvLoadImage] ++ trace run ++ tail))
               <= Qceiling x + 1).
  { intros tail Ha Hr.
    rewrite !encodeAttempts_app, !rasterizations_app, Ha, Hr.
    destruct (encodeLoop_attempts host o img (plan_width p) (plan_height p)
                                  fuel (initialQuality o))
      as (k & Hk & Hk' & Hinv).
    fold run in Hk, Hk'. rewrite Hk, Hk'. cbn [encodeAttempts rasterizations
      filter isEncode isDraw List.length Nat.add].
    assert (Hkb : Z.of_nat k < Qceiling x + 1).
    { destruct Hinv as [-> | Hinv]; [cbn; lia|].
      assert (Hlt : (inject_Z (Z.of_nat k) < x)%Q).
      { unfold x. apply Qlt_shift_div_l; [assumption | lra]. }
      pose proof (Qle_ceiling x) as Hc.
      assert (Hlt' : (inject_Z (Z.of_nat k) < inject_Z (Qceiling x))%Q) by lra.
      rewrite <- Zlt_Qlt in Hlt'. lia. }
    lia. }
  split; [|split].
  - destruct (outcome run) as [r | e |].
    + apply Htail; apply dataURLToFile_trace.
    + apply Htail; reflexivity.
    + apply Htail; reflexivity.
  - destruct (outcome run) as [r | e |].
    + apply Htail; apply dataURLToFile_trace.
    + apply Htail; reflexivity.
    + apply Htail; reflexivity.
  - intro Hfuel.
    assert (Hends : outcome run <> OutOfFuel).
    { apply encodeLoop_ends; [assumption|].
      rewrite Nat2Z.inj_succ. unfold Z.succ. rewrite inject_Z_plus.
      change (inject_Z 1) with 1%Q.
      pose proof (Qle_ceiling x) as Hc.
      assert (Hf : (inject_Z (Qceiling x + 1) <= inject_Z (Z.of_nat fuel))%Q)
        by (rewrite <- Zle_Qle; exact Hfuel).
      rewrite inject_Z_plus in Hf. change (inject_Z 1) with 1%Q in Hf.
      assert (Hxf : (x <= inject_Z (Z.of_nat fuel))%Q) by lra.
      assert (Hmul : (x * qualityStep o <= inject_Z (Z.of_nat fuel) * qualityStep o)%Q)
        by (apply Qmult_le_compat_r; [assumption | now apply Qlt_le_weak]).
      assert (Ex : (x * qualityStep o == initialQuality o - minQuality o)%Q).
      { unfold x. rewrite Qmult_comm. apply Qmult_div_r.
        intro E0. rewrite E0 in Hstep. exact (Qlt_irrefl _ Hstep). }
      lra. }
    destruct (outcome run) as [r | e |].
    + apply dataURLToFile_fuel.
    + discriminate.
    + contradiction.
Qed.

Lemma loop_passes_bounded_witness :
  let o := Sample.tightOptions "image/webp" in
  let run := compressImageFileWithLimit (Sample.host 3000 2000 10) o 8
                                        Sample.photo in
  Z.of_nat (encodeAttempts (trace run)) <= passBound o
  /\ Z.of_nat (rasterizations (trace run)) <= passBound o
  /\ (passBound o <= Z.of_nat 8 -> outcome run <> OutOfFuel).
Proof.
  apply (loop_passes_bounded (Sample.host 3000 2000 10)
                             (Sample.tightOptions "image/webp") 8 Sample.photo).
  - reflexivity.
  - reflexivity.
Defined.

Example default_pass_bound : passBound defaultOptions = 7.
Proof. vm_compute. reflexivity. Qed.

Example six_passes_over_budget :
  let run := compressImageFileWithLimit (Sample.host 3000 2000 10)
               (Sample.tightOptions "image/webp") 8 Sample.photo in
  encodeAttempts (trace run) = 6%nat
  /\ lastAttempt (trace run) = Some (570000000000 # 1000000000000).
Proof. vm_compute. split; reflexivity. Qed.

(** C9: with a floor below the initial quality, every encode attempt of a
    run uses a quality strictly above [minQuality]: the floor itself is
    never passed to the encoder.  (The positive step is not needed here.) *)
Theorem attempts_stay_above_floor (host : Host) (o : Options) (fuel : nat)
  (file : File)
  (Hfloor : (minQuality o < initialQuality o)%Q) :
  attemptsSatisfy (fun q => (minQuality o < q)%Q)
                  (trace (compressImageFileWithLimit host o fuel file)).
Proof.
  destruct (JS.startsWith (file_type file) "image/") eqn:Eimg.
  2: { rewrite compress_not_image by assumption. constructor. }
  rewrite compress_image by assumption.
  destruct (readAsDataURL host file) as [dataURL|]; [|repeat constructor].
  destruct (loadImage host dataURL) as [img|]; [|repeat constructor].
  unfold afterDecode. cbv zeta. cbn [trace fst].
  apply attemptsSatisfy_app. split; [repeat constructor|].
  apply attemptsSatisfy_app. split.
  - eapply attemptsSatisfy_impl; [|apply encodeLoop_qualities].
    intros q [-> | H]; assumption.
  - destruct (outcome (encodeLoop _ _ _ _ _ _ _)); try constructor.
    apply dataURLToFile_trace.
Qed.

Lemma attempts_stay_above_floor_witness :
  attemptsSatisfy (fun q => (minQuality (Sample.tightOptions "image/webp") < q)%Q)
    (trace (compressImageFileWithLimit (Sample.host 3000 2000 10)
              (Sample.tightOptions "image/webp") 8 Sample.photo)).
Proof.
  apply (attempts_stay_above_floor (Sample.host 3000 2000 10)
           (Sample.tightOptions "image/webp") 8 Sample.photo).
  reflexivity.
Defined.



Example oversized_run :
  let run := compressImageFileWithLimit (Sample.host 3000 2000 10)
               (Sample.tightOptions "image/png") 8 Sample.photo in
  encodeAttempts (trace run) = 6%nat
  /\ exists out, outcome run = Return out
                 /\ List.length (file_bits out) = 30%nat.
Proof. vm_compute. split; [reflexivity | eexists; split; reflexivity]. Qed.

(** ** The name of the result *)

Section Renaming.

Local Open Scope string_scope.

Lemma allWord_app (a b : string) :
  JS.allWord (a ++ b) = JS.allWord a && JS.allWord b.
Proof.
  induction a as [| c a IH]; cbn; [reflexivity|].
  now rewrite IH, andb_assoc.
Qed.

Lemma matchesWordsToEnd_allWord (s : string) :
  JS.matchesWordsToEnd s = true <-> s <> "" /\ JS.allWord s = true.
Proof.
  destruct s; cbn.
  - split; [discriminate | intros [H _]; now elim H].
  - split; [intro H; split; [discriminate | exact H] | intros [_ H]; exact H].
Qed.

Lemma no_match_across_dot (a ext : string) :
  JS.matchesWordsToEnd (a ++ "." ++ ext) = false.
Proof.
  destruct (JS.matchesWordsToEnd (a ++ "." ++ ext)) eqn:E; [|reflexivity].
  apply matchesWordsToEnd_allWord in E. destruct E as [_ E].
  rewrite allWord_app in E. apply andb_true_iff in E. destruct E as [_ E].
  cbn in E. discriminate.
Qed.

(** A trailing extension of word characters is replaced. *)
Lemma replaceTrailingExt_match (r stem ext : string) :
  ext <> "" -> JS.allWord ext = true ->
  JS.replaceTrailingExt r (stem ++ "." ++ ext) = stem ++ r.
Proof.
  intros Hne Hw. induction stem as [| c stem IH].
  - cbn [append JS.replaceTrailingExt].
    assert (E : JS.matchesWordsToEnd ext = true)
      by (apply matchesWordsToEnd_allWord; auto).
    rewrite E. reflexivity.
  - change ((String c stem) ++ "." ++ ext) with (String c (stem ++ "." ++ ext)).
    cbn [JS.replaceTrailingExt].
    rewrite no_match_across_dot, andb_false_r, IH. reflexivity.
Qed.

(** Without such an extension the name is kept. *)
Lemma replaceTrailingExt_no_match (r name : string) :
  (forall stem ext, name = stem ++ "." ++ ext ->
                    ext = "" \/ JS.allWord ext = false) ->
  JS.replaceTrailingExt r name = name.
Proof.
  induction name as [| c name IH]; intro H; [reflexivity|].
  cbn [JS.replaceTrailingExt].
  destruct (Ascii.eqb c "." && JS.matchesWordsToEnd name) eqn:E.
  - apply andb_true_iff in E. destruct E as [Ec Em].
    apply Ascii.eqb_eq in Ec. subst c.
    apply matchesWordsToEnd_allWord in Em. destruct Em as [Hne Hw].
    destruct (H "" name eq_refl) as [He | He]; congruence.
  - f_equal. apply IH. intros stem ext Hname.
    apply (H (String c stem) ext). cbn. now rewrite Hname.
Qed.

Lemma no_dot_no_split (name stem ext : string) :
  existsb (Ascii.eqb ".") (list_ascii_of_string name) = false ->
  name <> stem ++ "." ++ ext.
Proof.
  revert name. induction stem as [| c stem IH]; intros name Hdot Hname; subst name.
  - cbn in Hdot. discriminate.
  - cbn in Hdot. apply orb_false_iff in Hdot. destruct Hdot as [_ Hdot].
    exact (IH _ Hdot eq_refl).
Qed.

End Renaming.

(** C7, as the spec states it, fails: the image named "photo", which has no
    extension, comes back named "photo" under the default options, not
    "photo.webp". *)
Lemma extension_is_not_appended :
  ~ (forall (host : Host) (o : Options) (fuel : nat) (file out : File),
        JS.startsWith (file_type file) "image/" = true ->
        outcome (compressImageFileWithLimit host o fuel file) = Return out ->
        file_name out
        = Spec.renamed (Spec.canonicalExtension (mimeType o)) (file_name file)).
Proof.
  intro H.
  specialize (H (Sample.host 500 400 10) defaultOptions 0%nat Sample.untitled
                {| file_bits := list_byte_of_string (Sample.repeatString 9 "Man");
                   file_name := "photo";
                   file_type := "image/webp" |}
                eq_refl).
  assert (E : ("photo" = "photo.webp")%string).
  { apply H. vm_compute. reflexivity. }
  discriminate E.
Qed.

Example untitled_run :
  exists out,
    outcome (compressImageFileWithLimit (Sample.host 500 400 10) defaultOptions
               0 Sample.untitled) = Return out
    /\ file_name out = "photo"%string.
Proof. eexists. split; vm_compute; reflexivity. Qed.

(** The replacement text is the constant ".webp": an image encoded as JPEG
    is still named "photo.webp". *)
Example jpeg_run :
  exists out,
    outcome (compressImageFileWithLimit (Sample.host 500 400 10)
               (Sample.tightOptions "image/jpeg") 8 Sample.photo) = Return out
    /\ file_type out = "image/jpeg"%string
    /\ file_name out = "photo.webp"%string.
Proof. eexists. repeat split; vm_compute; reflexivity. Qed.

(** C7, amended: when the configured output type is "image/webp", the name
    of the returned file is the original name with its trailing extension (a
    dot followed by one or more word characters [[A-Za-z0-9_]] up to the end)
    replaced by the canonical extension of that type, ".webp"; a name without
    such an extension is returned as it is. *)
Theorem output_name_for_webp (host : Host) (o : Options) (fuel : nat)
  (file out : File)
  (Himage : JS.startsWith (file_type file) "image/" = true)
  (Hwebp : mimeType o = "image/webp"%string)
  (Hreturn : outcome (compressImageFileWithLimit host o fuel file) = Return out) :
  (forall stem ext : string,
      file_name file = (stem ++ "." ++ ext)%string ->
      ext <> EmptyString -> JS.allWord ext = true ->
      file_name out = (stem ++ Spec.canonicalExtension (mimeType o))%string)
  /\ ((forall stem ext : string,
          file_name file = (stem ++ "." ++ ext)%string ->
          ext = EmptyString \/ JS.allWord ext = false) ->
      file_name out = file_name file).
Proof.
  assert (Hname : file_name out = JS.replaceTrailingExt ".webp" (file_name file)).
  { rewrite compress_image in Hreturn by assumption.
    destruct (readAsDataURL host file) as [dataURL|]; [|discriminate].
    destruct (loadImage host dataURL) as [img|]; [|discriminate].
    unfold afterDecode in Hreturn. cbv zeta in Hreturn.
    cbn [outcome snd] in Hreturn.
    destruct (outcome (encodeLoop _ _ _ _ _ _ _)) as [r | e |];
      try discriminate.
    rewrite dataURLToFile_cases in Hreturn.
    destruct (JS.matchColonGroup (headerOf (fst r))); [|discriminate].
    destruct (atob host (payloadOf (fst r))); [|discriminate].
    cbn in Hreturn. injection Hreturn as <-. reflexivity. }
  rewrite Hname, Hwebp. split.
  - intros stem ext Hsplit Hne Hw. rewrite Hsplit.
    apply replaceTrailingExt_match; assumption.
  - intro Hnone. apply replaceTrailingExt_no_match. exact Hnone.
Qed.

Lemma output_name_for_webp_witness :
  let run := compressImageFileWithLimit (Sample.host 500 400 10) defaultOptions
                                        0 in
  (exists out, outcome (run Sample.photo) = Return out
               /\ file_name out = "photo.webp"%string)
  /\ (exists out, outcome (run Sample.untitled) = Return out
                  /\ file_name out = "photo"%string).
Proof.
  cbv zeta.
  assert (Hphoto : outcome (compressImageFileWithLimit (Sample.host 500 400 10)
                              defaultOptions 0 Sample.photo)
                   = Return {| file_bits :=
                                 list_byte_of_string (Sample.repeatString 9 "Man");
                               file_name := "photo.webp";
                               file_type := "image/webp" |})
    by (vm_compute; reflexivity).
  assert (Huntitled : outcome (compressImageFileWithLimit (Sample.host 500 400 10)
                                 defaultOptions 0 Sample.untitled)
                      = Return {| file_bits :=
                                    list_byte_of_string (Sample.repeatString 9 "Man");
                                  file_name := "photo";
                                  file_type := "image/webp" |})
    by (vm_compute; reflexivity).
  split; eexists; (split; [eassumption|]).
  - apply (proj1 (output_name_for_webp (Sample.host 500 400 10) defaultOptions
                    0 Sample.photo _ eq_refl eq_refl Hphoto)
                 "photo"%string "png"%string eq_refl).
    + discriminate.
    + reflexivity.
  - apply (proj2 (output_name_for_webp (Sample.host 500 400 10) defaultOptions
                    0 Sample.untitled _ eq_refl eq_refl Huntitled)).
    intros stem ext Hsplit. exfalso.
    exact (no_dot_no_split "photo"%string stem ext eq_refl Hsplit).
Defined.

(** * Further properties of the code *)

(** ** Dimension planning: orientation, limits reached, replanning *)

Section PlannerMore.

Variable o : Options.
Variables width height : Z.

Local Open Scope Q_scope.

Lemma Math_round_comp (x y : Q) : x == y -> JS.Math_round x = JS.Math_round y.
Proof. intro E. unfold JS.Math_round. now rewrite E. Qed.

Lemma shortSideOf_comm : shortSideOf height width = shortSideOf width height.
Proof. rewrite !shortSideOf_min. apply Z.min_comm. Qed.

Lemma longSideOf_comm : longSideOf height width = longSideOf width height.
Proof. rewrite !longSideOf_max. apply Z.max_comm. Qed.

Lemma needsResize_comm : needsResize o height width = needsResize o width height.
Proof. unfold needsResize. now rewrite shortSideOf_comm, longSideOf_comm. Qed.

Lemma resizeScale_comm : resizeScale o height width = resizeScale o width height.
Proof. unfold resizeScale. now rewrite shortSideOf_comm, longSideOf_comm. Qed.

Hypothesis width_pos : (0 < width)%Z.
Hypothesis height_pos : (0 < height)%Z.
Hypothesis short_limit_nonneg : 0 <= maxShortSide o.
Hypothesis long_limit_nonneg : 0 <= maxLongSide o.

Lemma resizeScale_nonneg : 0 <= resizeScale o width height.
Proof.
  unfold resizeScale.
  destruct (Math_min_cases
              (maxShortSide o / inject_Z (shortSideOf width height))
              (maxLongSide o / inject_Z (longSideOf width height))) as [-> | ->].
  - apply Qle_shift_div_l; [now apply shortSide_pos | lra].
  - apply Qle_shift_div_l; [now apply longSide_pos | lra].
Qed.

(** Scaling by a scale that is not negative keeps the order of two sides. *)
Lemma scaled_round_mono (x y : Z) :
  (x <= y)%Z ->
  (JS.Math_round (inject_Z x * resizeScale o width height)
   <= JS.Math_round (inject_Z y * resizeScale o width height))%Z.
Proof.
  intro Hxy. apply Math_round_mono.
  apply Qmult_le_compat_r; [now rewrite <- Zle_Qle | apply resizeScale_nonneg].
Qed.

Lemma scaled_round_nonneg (x : Z) :
  (0 <= x)%Z -> (0 <= JS.Math_round (inject_Z x * resizeScale o width height))%Z.
Proof.
  intro Hx. rewrite <- (Math_round_Z 0) at 1. apply Math_round_mono.
  apply Qmult_le_0_compat; [|apply resizeScale_nonneg].
  change 0 with (inject_Z 0). now rewrite <- Zle_Qle.
Qed.

End PlannerMore.

(** X1: the plan does not depend on the orientation: for the transposed
    image the scale is the same and the planned width and height are
    exchanged. *)
Theorem plan_of_transposed_image (o : Options) (width height : Z) :
  planDimensions o height width =
  {| plan_scale := plan_scale (planDimensions o width height);
     plan_width := plan_height (planDimensions o width height);
     plan_height := plan_width (planDimensions o width height) |}.
Proof.
  unfold planDimensions.
  rewrite needsResize_comm, shortSideOf_comm, longSideOf_comm.
  destruct (needsResize o width height); reflexivity.
Qed.

(** X2: with limits that are not negative, a portrait image is planned as a
    portrait image and a landscape one as a landscape one, and no planned
    dimension is negative. *)
Theorem plan_keeps_orientation (o : Options) (width height : Z)
  (Hw : 0 < width) (Hh : 0 < height)
  (Hms : (0 <= maxShortSide o)%Q) (Hml : (0 <= maxLongSide o)%Q) :
  let p := planDimensions o width height in
  (width <= height -> plan_width p <= plan_height p)
  /\ (height <= width -> plan_height p <= plan_width p)
  /\ 0 <= plan_width p /\ 0 <= plan_height p.
Proof.
  cbv zeta. destruct (needsResize o width height) eqn:E.
  - rewrite planDimensions_resize by assumption.
    cbn [plan_width plan_height].
    repeat split.
    + now apply scaled_round_mono.
    + now apply scaled_round_mono.
    + apply scaled_round_nonneg; try assumption. lia.
    + apply scaled_round_nonneg; try assumption. lia.
  - rewrite planDimensions_keep by assumption. cbn. repeat split; lia.
Qed.

Lemma plan_keeps_orientation_witness :
  let p := planDimensions defaultOptions 2000 3000 in
  (2000 <= 3000 -> plan_width p <= plan_height p)
  /\ (3000 <= 2000 -> plan_height p <= plan_width p)
  /\ 0 <= plan_width p /\ 0 <= plan_height p.
Proof.
  apply (plan_keeps_orientation defaultOptions 2000 3000).
  - lia.
  - lia.
  - vm_compute. discriminate.
  - vm_compute. discriminate.
Defined.

(** X3: a resize shrinks no more than the limits ask for: with integer
    limits that are not negative, the planned short side is exactly
    [maxShortSide] or the planned long side is exactly [maxLongSide]. *)
Theorem resize_reaches_a_limit (o : Options) (ms ml width height : Z)
  (Hms : (maxShortSide o == inject_Z ms)%Q)
  (Hml : (maxLongSide o == inject_Z ml)%Q)
  (Hms0 : 0 <= ms) (Hml0 : 0 <= ml)
  (Hw : 0 < width) (Hh : 0 < height)
  (Hresize : needsResize o width height = true) :
  let p := planDimensions o width height in
  shortSideOf (plan_width p) (plan_height p) = ms
  \/ longSideOf (plan_width p) (plan_height p) = ml.
Proof.
  cbv zeta. rewrite planDimensions_resize by assumption.
  cbn [plan_width plan_height].
  assert (Hms' : (0 <= maxShortSide o)%Q)
    by (rewrite Hms; change 0%Q with (inject_Z 0); now rewrite <- Zle_Qle).
  assert (Hml' : (0 <= maxLongSide o)%Q)
    by (rewrite Hml; change 0%Q with (inject_Z 0); now rewrite <- Zle_Qle).
  pose proof (scaled_round_mono o width height Hw Hh Hms' Hml') as Hmono.
  assert (Hsp : (0 < inject_Z (shortSideOf width height))%Q)
    by (apply shortSide_pos; assumption).
  assert (Hlp : (0 < inject_Z (longSideOf width height))%Q)
    by (apply longSide_pos; assumption).
  set (s := resizeScale o width height) in *.
  assert (Hshort : shortSideOf (JS.Math_round (inject_Z width * s))
                               (JS.Math_round (inject_Z height * s))
                   = JS.Math_round (inject_Z (shortSideOf width height) * s)).
  { rewrite !shortSideOf_min.
    destruct (Z.le_ge_cases width height) as [Hle | Hge].
    - rewrite (Z.min_l width height) by assumption.
      apply Z.min_l. now apply Hmono.
    - rewrite (Z.min_r width height) by assumption.
      apply Z.min_r. now apply Hmono. }
  assert (Hlong : longSideOf (JS.Math_round (inject_Z width * s))
                             (JS.Math_round (inject_Z height * s))
                  = JS.Math_round (inject_Z (longSideOf width height) * s)).
  { rewrite !longSideOf_max.
    destruct (Z.le_ge_cases width height) as [Hle | Hge].
    - rewrite (Z.max_r width height) by assumption.
      apply Z.max_r. now apply Hmono.
    - rewrite (Z.max_l width height) by assumption.
      apply Z.max_l. now apply Hmono. }
  rewrite Hshort, Hlong.
  destruct (Math_min_cases
              (maxShortSide o / inject_Z (shortSideOf width height))
              (maxLongSide o / inject_Z (longSideOf width height))) as [E | E].
  - left. unfold s, resizeScale. rewrite E.
    rewrite <- (Math_round_Z ms). apply Math_round_comp.
    rewrite <- Hms. apply Qmult_div_r.
    intro E0. rewrite E0 in Hsp. exact (Qlt_irrefl _ Hsp).
  - right. unfold s, resizeScale. rewrite E.
    rewrite <- (Math_round_Z ml). apply Math_round_comp.
    rewrite <- Hml. apply Qmult_div_r.
    intro E0. rewrite E0 in Hlp. exact (Qlt_irrefl _ Hlp).
Qed.

Lemma resize_reaches_a_limit_witness :
  let p := planDimensions defaultOptions 3000 2000 in
  shortSideOf (plan_width p) (plan_height p) = 768
  \/ longSideOf (plan_width p) (plan_height p) = 1568.
Proof.
  apply (resize_reaches_a_limit defaultOptions 768 1568 3000 2000).
  - reflexivity.
  - reflexivity.
  - lia.
  - lia.
  - lia.
  - lia.
  - vm_compute. reflexivity.
Defined.

(** X4: planning is idempotent: with integer limits (the long-side limit not
    negative), the planned dimensions are within both limits, so planning them
    again changes nothing. *)
Theorem replanning_changes_nothing (o : Options) (ms ml width height : Z)
  (Hms : (maxShortSide o == inject_Z ms)%Q)
  (Hml : (maxLongSide o == inject_Z ml)%Q)
  (Hml0 : 0 <= ml)
  (Hw : 0 < width) (Hh : 0 < height) :
  let p := planDimensions o width height in
  planDimensions o (plan_width p) (plan_height p)
  = mkPlan 1 (plan_width p) (plan_height p).
Proof.
  cbv zeta. destruct (needsResize o width height) eqn:E.
  - rewrite (planDimensions_resize o width height E).
    cbn [plan_width plan_height].
    set (s := resizeScale o width height).
    apply planDimensions_keep, needsResize_false.
    rewrite shortSideOf_min, longSideOf_max, Hms, Hml, <- !Zle_Qle.
    assert (Hside : forall x : Z, (0 < x <= longSideOf width height)%Z ->
              (JS.Math_round (inject_Z x * s) <= ml)%Z).
    { intros x Hx. rewrite <- (Math_round_Z ml). apply Math_round_mono.
      rewrite <- Hml. apply side_scaled_le; try assumption.
      rewrite Hml. change 0%Q with (inject_Z 0). now rewrite <- Zle_Qle. }
    assert (Hshort : (JS.Math_round (inject_Z (shortSideOf width height) * s)
                      <= ms)%Z).
    { rewrite <- (Math_round_Z ms). apply Math_round_mono. rewrite <- Hms.
      now apply short_scaled_le. }
    rewrite longSideOf_max in Hside. rewrite shortSideOf_min in Hshort.
    assert (JS.Math_round (inject_Z width * s) <= ml) by (apply Hside; lia).
    assert (JS.Math_round (inject_Z height * s) <= ml) by (apply Hside; lia).
    split; [|lia].
    destruct (Z.le_ge_cases width height) as [Hle | Hge].
    + rewrite Z.min_l in Hshort by assumption. lia.
    + rewrite Z.min_r in Hshort by assumption. lia.
  - rewrite (planDimensions_keep o width height E). cbn [plan_width plan_height].
    apply planDimensions_keep. exact E.
Qed.

Lemma replanning_changes_nothing_witness :
  let p := planDimensions defaultOptions 3000 2000 in
  planDimensions defaultOptions (plan_width p) (plan_height p)
  = mkPlan 1 (plan_width p) (plan_height p).
Proof.
  apply (replanning_changes_nothing defaultOptions 768 1568 3000 2000).
  - reflexivity.
  - reflexivity.
  - lia.
  - lia.
  - lia.
Defined.

(** ** The loop: which qualities, when it stops, when it does not *)

Section LoopMore.

Variable host : Host.
Variable o : Options.
Variable img : HTMLImageElement.
Variables width height : Z.

Local Open Scope Q_scope.

Local Abbreviation once := (encodeOnce host img width height (mimeType o)).
Local Abbreviation loop := (encodeLoop host o img width height).
Local Abbreviation canvas := (canvasToDataURL host img width height (mimeType o)).

Lemma attemptQualities_app (t1 t2 : list Event) :
  attemptQualities (t1 ++ t2) = attemptQualities t1 ++ attemptQualities t2.
Proof.
  induction t1 as [| e t1 IH]; [reflexivity|].
  destruct e; cbn; now rewrite IH.
Qed.

Lemma encodeOnce_qualities (quality : Q) :
  attemptQualities (trace (once quality)) = [quality].
Proof.
  rewrite encodeOnce_cases.
  destruct (canvas quality) as [url|]; [destruct (fetchBlobSize host url)|];
    reflexivity.
Qed.

(** The attempts are made at [quality], [quality - step], ... *)
Lemma encodeLoop_descending (fuel : nat) (quality : Q) :
  attemptQualities (trace (loop fuel quality))
  = descending (qualityStep o)
               (encodeAttempts (trace (loop fuel quality))) quality.
Proof.
  revert quality. induction fuel as [| fuel IH]; intro quality;
    rewrite encodeLoop_step;
    pose proof (encodeOnce_qualities quality) as Hq;
    destruct (encodeOnce_attempts host o img width height quality)
      as (Ha & _ & _);
    destruct (outcome (once quality)) as [r | e |];
    try (cbn [trace fst]; rewrite Hq, Ha; reflexivity).
  - destruct (repeats o r (quality - qualityStep o));
      cbn [trace fst]; rewrite Hq, Ha; reflexivity.
  - destruct (repeats o r (quality - qualityStep o));
      [| cbn [trace fst]; rewrite Hq, Ha; reflexivity].
    cbn [trace fst].
    rewrite attemptQualities_app, encodeAttempts_app, Hq, Ha, IH.
    reflexivity.
Qed.

(** Every attempt but the last yielded a blob over the budget: a fit, like a
    failure, ends the loop. *)
Lemma encodeLoop_earlier_attempts (fuel : nat) (quality : Q) :
  Forall (fun q => exists url size,
                     canvas q = Some url
                     /\ fetchBlobSize host url = Some size
                     /\ maxSizeBytes o < inject_Z size)
         (removelast (attemptQualities (trace (loop fuel quality)))).
Proof.
  revert quality. induction fuel as [| fuel IH]; intro quality;
    rewrite encodeLoop_step;
    pose proof (encodeOnce_qualities quality) as Hq;
    destruct (outcome (once quality)) as [r | e |] eqn:Eo;
    try (cbn [trace fst]; rewrite Hq; constructor).
  - destruct (repeats o r (quality - qualityStep o));
      cbn [trace fst]; rewrite Hq; constructor.
  - destruct (repeats o r (quality - qualityStep o)) eqn:E;
      [| cbn [trace fst]; rewrite Hq; constructor].
    cbn [trace fst]. rewrite attemptQualities_app, Hq.
    specialize (IH (quality - qualityStep o)).
    destruct (encodeLoop_attempts host o img width height fuel
                                  (quality - qualityStep o)) as (k & Hk & _).
    rewrite encodeLoop_descending, Hk in *.
    cbn [descending app removelast] in *.
    constructor; [|exact IH].
    apply repeats_true in E. destruct E as [Hbig _].
    apply encodeOnce_Return in Eo. destruct Eo as [Hc Hf].
    exists (fst r), (snd r). auto.
Qed.

Lemma lastAttempt_None (t : list Event) :
  lastAttempt t = None -> encodeAttempts t = 0%nat.
Proof.
  induction t as [| e t IH]; [reflexivity|].
  cbn [lastAttempt]. destruct (lastAttempt t); [discriminate|].
  destruct e; try discriminate; intros _; apply (IH eq_refl).
Qed.

Lemma encodeOnce_fails (quality : Q) :
  (canvas quality = None -> outcome (once quality) = Throw CanvasError)
  /\ (forall url, canvas quality = Some url -> fetchBlobSize host url = None ->
                  outcome (once quality) = Throw FetchError).
Proof.
  rewrite encodeOnce_cases. split.
  - intros ->. reflexivity.
  - intros url -> ->. reflexivity.
Qed.

(** A failure of the last attempt is the failure of the loop. *)
Lemma encodeLoop_last_fails (fuel : nat) (quality last : Q) :
  lastAttempt (trace (loop fuel quality)) = Some last ->
  (canvas last = None -> outcome (loop fuel quality) = Throw CanvasError)
  /\ (forall url, canvas last = Some url -> fetchBlobSize host url = None ->
                  outcome (loop fuel quality) = Throw FetchError).
Proof.
  revert quality. induction fuel as [| fuel IH]; intro quality;
    rewrite encodeLoop_step;
    destruct (encodeOnce_attempts host o img width height quality)
      as (_ & _ & Hl);
    destruct (encodeOnce_fails quality) as [Hcf Hff];
    pose proof (encodeOnce_fuel host o img width height quality) as Hnf;
    destruct (outcome (once quality)) as [r | e |] eqn:Eo;
    try contradiction.
  - apply encodeOnce_Return in Eo. destruct Eo as [Hc Hf].
    destruct (repeats o r (quality - qualityStep o)); cbn [trace outcome fst snd];
      rewrite Hl; intro H; injection H as <-;
      (split; [intro Hn; specialize (Hcf Hn); discriminate
              | intros url Hu Hn; specialize (Hff url Hu Hn); discriminate]).
  - cbn [trace outcome fst snd]. rewrite Hl. intro H. injection H as <-.
    split; assumption.
  - apply encodeOnce_Return in Eo. destruct Eo as [Hc Hf].
    destruct (repeats o r (quality - qualityStep o)).
    + cbn [trace outcome fst snd]. rewrite lastAttempt_app.
      destruct (lastAttempt (trace (loop fuel (quality - qualityStep o))))
        as [q'|] eqn:El.
      * intro H. injection H as ->. apply IH. exact El.
      * apply lastAttempt_None in El.
        destruct (encodeLoop_attempts host o img width height fuel
                    (quality - qualityStep o)) as (k & Hk & _).
        rewrite Hk in El. discriminate.
    + cbn [trace outcome fst snd]. rewrite Hl. intro H. injection H as <-.
      split; [intro Hn; specialize (Hcf Hn); discriminate
             | intros url Hu Hn; specialize (Hff url Hu Hn); discriminate].
  - cbn [trace outcome fst snd]. rewrite Hl. intro H. injection H as <-.
    split; assumption.
Qed.

(** With a floor that the first decrement reaches, the loop is one pass. *)
Lemma encodeLoop_single (fuel : nat) (quality : Q) :
  quality - qualityStep o <= minQuality o ->
  loop fuel quality = once quality.
Proof.
  intro Hfloor. rewrite encodeLoop_step.
  pose proof (encodeOnce_fuel host o img width height quality) as Hnf.
  transitivity (trace (once quality), outcome (once quality));
    [| symmetry; apply M_eta].
  destruct (outcome (once quality)) as [r | e |]; try reflexivity.
  assert (E : repeats o r (quality - qualityStep o) = false).
  { unfold repeats. apply andb_false_iff. right. now apply gt_false. }
  now rewrite E.
Qed.

(** With a step that is not positive, an encoder that never fits the budget
    keeps the loop running: every fuel is used up. *)
Lemma encodeLoop_never_ends (fuel : nat) (start quality : Q) :
  qualityStep o <= 0 ->
  minQuality o < start ->
  (forall q, start <= q ->
     exists url size, canvas q = Some url
                      /\ fetchBlobSize host url = Some size
                      /\ maxSizeBytes o < inject_Z size) ->
  start <= quality ->
  outcome (loop fuel quality) = OutOfFuel
  /\ encodeAttempts (trace (loop fuel quality)) = S fuel.
Proof.
  intros Hstep Hfloor Hover. revert quality.
  induction fuel as [| fuel IH]; intros quality Hq;
    rewrite encodeLoop_step;
    destruct (Hover quality Hq) as (url & size & Hc & Hf & Hbig);
    destruct (encodeOnce_attempts host o img width height quality)
      as (Ha & _ & _);
    assert (Eo : outcome (once quality) = Return (url, size))
      by (apply encodeOnce_Return; auto);
    rewrite Eo;
    assert (E : repeats o (url, size) (quality - qualityStep o) = true)
      by (apply repeats_true; cbn [snd]; split; [assumption | lra]);
    rewrite E; cbn [trace outcome fst snd].
  - auto.
  - destruct (IH (quality - qualityStep o)) as [Ho Hn]; [lra|].
    rewrite encodeAttempts_app, Ha, Hn. auto.
Qed.

End LoopMore.

Section WholeMore.

Variable host : Host.
Variable o : Options.
Variable fuel : nat.
Variable file : File.

(** The attempts of a run that decoded the image are those of its loop. *)
Lemma afterDecode_qualities (img : HTMLImageElement) :
  let p := planDimensions o (img_width img) (img_height img) in
  attemptQualities (trace (afterDecode host o fuel file img))
  = attemptQualities
      (trace (encodeLoop host o img (plan_width p) (plan_height p) fuel
                         (initialQuality o)))
  /\ encodeAttempts (trace (afterDecode host o fuel file img))
     = encodeAttempts
         (trace (encodeLoop host o img (plan_width p) (plan_height p) fuel
                            (initialQuality o)))
  /\ lastAttempt (trace (afterDecode host o fuel file img))
     = lastAttempt
         (trace (encodeLoop host o img (plan_width p) (plan_height p) fuel
                            (initialQuality o))).
Proof.
  cbv zeta. unfold afterDecode. cbv zeta. cbn [trace fst].
  set (run := encodeLoop host o img _ _ fuel (initialQuality o)).
  assert (Htail : forall tail,
            tail = [] \/ tail = [EvAtob] ->
            attemptQualities ([EvReadAsDataURL; EvLoadImage] ++ trace run ++ tail)
            = attemptQualities (trace run)
            /\ encodeAttempts ([EvReadAsDataURL; EvLoadImage] ++ trace run ++ tail)
               = encodeAttempts (trace run)
            /\ lastAttempt ([EvReadAsDataURL; EvLoadImage] ++ trace run ++ tail)
               = lastAttempt (trace run)).
  { intros tail Ht.
    rewrite !attemptQualities_app, !encodeAttempts_app, !lastAttempt_app.
    destruct Ht as [-> | ->]; cbn.
    - rewrite app_nil_r, Nat.add_0_r.
      repeat split. now destruct (lastAttempt (trace run)).
    - rewrite app_nil_r, Nat.add_0_r.
      repeat split. now destruct (lastAttempt (trace run)). }
  apply Htail.
  destruct (outcome run) as [r | e |]; auto.
  rewrite dataURLToFile_cases.
  destruct (JS.matchColonGroup (headerOf (fst r)));
    [destruct (atob host (payloadOf (fst r)))|]; auto.
Qed.

End WholeMore.

(** X5: the encode attempts of a run are made at [initialQuality],
    [initialQuality - qualityStep], [initialQuality - 2 * qualityStep], ...:
    the first attempt always uses the initial quality and each further one
    the previous quality less one step. *)
Theorem attempts_descend_by_steps (host : Host) (o : Options) (fuel : nat)
  (file : File) :
  let run := compressImageFileWithLimit host o fuel file in
  attemptQualities (trace run)
  = descending (qualityStep o) (encodeAttempts (trace run)) (initialQuality o).
Proof.
  cbv zeta.
  destruct (JS.startsWith (file_type file) "image/") eqn:Eimg.
  2: { rewrite compress_not_image by assumption. reflexivity. }
  rewrite compress_image by assumption.
  destruct (readAsDataURL host file) as [dataURL|]; [|reflexivity].
  destruct (loadImage host dataURL) as [img|]; [|reflexivity].
  destruct (afterDecode_qualities host o fuel file img) as (Hq & Ha & _).
  rewrite Hq, Ha. apply encodeLoop_descending.
Qed.



(** X7: every attempt before the last one succeeded and yielded a blob over
    the budget: the loop never goes on after a fit or after a failure. *)
Theorem earlier_attempts_were_oversized (host : Host) (o : Options)
  (fuel : nat) (file : File) (dataURL : string) (img : HTMLImageElement)
  (Himage : JS.startsWith (file_type file) "image/" = true)
  (Hread : readAsDataURL host file = Some dataURL)
  (Hload : loadImage host dataURL = Some img) :
  let p := planDimensions o (img_width img) (img_height img) in
  Forall (fun q => exists url size,
                     canvasToDataURL host img (plan_width p) (plan_height p)
                                     (mimeType o) q = Some url
                     /\ fetchBlobSize host url = Some size
                     /\ (maxSizeBytes o < inject_Z size)%Q)
         (removelast
            (attemptQualities
               (trace (compressImageFileWithLimit host o fuel file)))).
Proof.
  cbv zeta. rewrite compress_image, Hread, Hload by assumption.
  destruct (afterDecode_qualities host o fuel file img) as (Hq & _ & _).
  cbv zeta in Hq. rewrite Hq. apply encodeLoop_earlier_attempts.
Qed.

Lemma earlier_attempts_were_oversized_witness :
  let o := Sample.tightOptions "image/webp" in
  let h := Sample.host 3000 2000 10 in
  Forall (fun q => exists url size,
                     canvasToDataURL h (mkImage 3000 2000) 1152 768
                                     (mimeType o) q = Some url
                     /\ fetchBlobSize h url = Some size
                     /\ (maxSizeBytes o < inject_Z size)%Q)
         (removelast
            (attemptQualities
               (trace (compressImageFileWithLimit h o 8 Sample.photo)))).
Proof.
  apply (earlier_attempts_were_oversized (Sample.host 3000 2000 10)
           (Sample.tightOptions "image/webp") 8 Sample.photo
           "data:image/png;base64,AAAA" (mkImage 3000 2000)
           eq_refl eq_refl eq_refl).
Defined.

(** X8: a failure of the canvas or of the fetch at the last attempt is the
    failure of the whole call: the promise rejects with that error. *)
Theorem failed_attempt_rejects (host : Host) (o : Options) (fuel : nat)
  (file : File) (dataURL : string) (img : HTMLImageElement) (last : Q)
  (Himage : JS.startsWith (file_type file) "image/" = true)
  (Hread : readAsDataURL host file = Some dataURL)
  (Hload : loadImage host dataURL = Some img)
  (Hlast : lastAttempt (trace (compressImageFileWithLimit host o fuel file))
           = Some last) :
  let p := planDimensions o (img_width img) (img_height img) in
  let canvas := canvasToDataURL host img (plan_width p) (plan_height p)
                                (mimeType o) in
  let run := compressImageFileWithLimit host o fuel file in
  (canvas last = None -> outcome run = Throw CanvasError)
  /\ (forall url, canvas last = Some url -> fetchBlobSize host url = None ->
                  outcome run = Throw FetchError).
Proof.
  cbv zeta. rewrite compress_image, Hread, Hload in * by assumption.
  destruct (afterDecode_qualities host o fuel file img) as (_ & _ & Hl).
  cbv zeta in Hl. rewrite Hl in Hlast.
  destruct (encodeLoop_last_fails host o img _ _ fuel _ last Hlast) as [Hc Hf].
  unfold afterDecode. cbv zeta. cbn [outcome snd].
  split.
  - intro Hn. rewrite (Hc Hn). reflexivity.
  - intros url Hu Hn. rewrite (Hf url Hu Hn). reflexivity.
Qed.

Lemma failed_attempt_rejects_witness :
  let o := Sample.tightOptions "image/webp" in
  let h := SampleMore.fragile (8 # 10) in
  let run := compressImageFileWithLimit h o 8 Sample.photo in
  encodeAttempts (trace run) = 3%nat /\ outcome run = Throw CanvasError.
Proof.
  split; [vm_compute; reflexivity|].
  apply (proj1 (failed_attempt_rejects (SampleMore.fragile (8 # 10))
                  (Sample.tightOptions "image/webp") 8 Sample.photo
                  "data:image/png;base64,AAAA" (mkImage 3000 2000)
                  (780000 # 1000000) eq_refl eq_refl eq_refl
                  ltac:(vm_compute; reflexivity))).
  vm_compute. reflexivity.
Defined.

(** X9: when one step from the initial quality is already at or below the
    floor, there is a single attempt whatever its size, and the loop needs
    no repetition at all. *)
Theorem floor_within_one_step_is_single_attempt (host : Host) (o : Options)
  (fuel : nat) (file : File)
  (Hfloor : (initialQuality o - qualityStep o <= minQuality o)%Q) :
  let run := compressImageFileWithLimit host o fuel file in
  (encodeAttempts (trace run) <= 1)%nat /\ outcome run <> OutOfFuel.
Proof.
  cbv zeta.
  destruct (JS.startsWith (file_type file) "image/") eqn:Eimg.
  2: { rewrite compress_not_image by assumption. cbn. split; [lia | discriminate]. }
  rewrite compress_image by assumption.
  destruct (readAsDataURL host file) as [dataURL|];
    [| cbn; split; [lia | discriminate]].
  destruct (loadImage host dataURL) as [img|];
    [| cbn; split; [lia | discriminate]].
  destruct (afterDecode_qualities host o fuel file img) as (_ & Ha & _).
  cbv zeta in Ha. rewrite Ha.
  unfold afterDecode. cbv zeta. cbn [outcome snd].
  rewrite encodeLoop_single by assumption.
  destruct (encodeOnce_attempts host o img
              (plan_width (planDimensions o (img_width img) (img_height img)))
              (plan_height (planDimensions o (img_width img) (img_height img)))
              (initialQuality o)) as (H1 & _ & _).
  rewrite H1. split; [lia|].
  pose proof (encodeOnce_fuel host o img
                (plan_width (planDimensions o (img_width img) (img_height img)))
                (plan_height (planDimensions o (img_width img) (img_height img)))
                (initialQuality o)) as Hnf.
  destruct (outcome (encodeOnce host img _ _ (mimeType o) (initialQuality o)))
    as [r | e |]; [apply dataURLToFile_fuel | discriminate | contradiction].
Qed.

Lemma floor_within_one_step_is_single_attempt_witness :
  let o := SampleMore.options "image/webp" (9 # 10) (7 # 100) in
  let run := compressImageFileWithLimit (Sample.host 3000 2000 10) o 0
                                        Sample.photo in
  (encodeAttempts (trace run) <= 1)%nat /\ outcome run <> OutOfFuel.
Proof.
  apply (floor_within_one_step_is_single_attempt (Sample.host 3000 2000 10)
           (SampleMore.options "image/webp" (9 # 10) (7 # 100)) 0 Sample.photo).
  vm_compute. discriminate.
Defined.

(** X10: the step must be positive for the loop to end: with a step that is
    zero or negative and a floor below the initial quality, an encoder whose
    output never fits the budget keeps the loop running for ever: whatever
    the fuel, it is used up, after [fuel + 1] attempts. *)
Theorem non_positive_step_never_ends (host : Host) (o : Options) (fuel : nat)
  (file : File) (dataURL : string) (img : HTMLImageElement)
  (Himage : JS.startsWith (file_type file) "image/" = true)
  (Hread : readAsDataURL host file = Some dataURL)
  (Hload : loadImage host dataURL = Some img)
  (Hstep : (qualityStep o <= 0)%Q)
  (Hfloor : (minQuality o < initialQuality o)%Q) :
  let p := planDimensions o (img_width img) (img_height img) in
  (forall q : Q,
      (initialQuality o <= q)%Q ->
      exists url size,
        canvasToDataURL host img (plan_width p) (plan_height p) (mimeType o) q
        = Some url
        /\ fetchBlobSize host url = Some size
        /\ (maxSizeBytes o < inject_Z size)%Q) ->
  let run := compressImageFileWithLimit host o fuel file in
  outcome run = OutOfFuel /\ encodeAttempts (trace run) = S fuel.
Proof.
  cbv zeta. intro Hover.
  rewrite compress_image, Hread, Hload by assumption.
  destruct (afterDecode_qualities host o fuel file img) as (_ & Ha & _).
  cbv zeta in Ha. rewrite Ha.
  destruct (encodeLoop_never_ends host o img _ _ fuel (initialQuality o)
              (initialQuality o) Hstep Hfloor Hover (Qle_refl _)) as [Ho Hn].
  unfold afterDecode. cbv zeta. cbn [outcome snd].
  rewrite Ho, Hn. auto.
Qed.

Lemma non_positive_step_never_ends_witness :
  let o := SampleMore.options "image/png" (5 # 10) 0 in
  let run := compressImageFileWithLimit (Sample.host 3000 2000 10) o 20
                                        Sample.photo in
  outcome run = OutOfFuel /\ encodeAttempts (trace run) = 21%nat.
Proof.
  apply (non_positive_step_never_ends (Sample.host 3000 2000 10)
           (SampleMore.options "image/png" (5 # 10) 0) 20 Sample.photo
           "data:image/png;base64,AAAA" (mkImage 3000 2000)
           eq_refl eq_refl eq_refl).
  - vm_compute. discriminate.
  - reflexivity.
  - intros q _.
    exists ("data:image/png;base64," ++ Sample.repeatString 10 "TWFu")%string, 30.
    repeat split.
Defined.

(** X12: when the file cannot be read, the call rejects with the file
    reader's error and nothing else is called; when the data URL cannot be
    decoded as an image, it rejects with the image's error before any canvas
    is created. *)
Theorem unreadable_input_rejects (host : Host) (o : Options) (fuel : nat)
  (file : File)
  (Himage : JS.startsWith (file_type file) "image/" = true) :
  (readAsDataURL host file = None ->
   compressImageFileWithLimit host o fuel file
   = ([EvReadAsDataURL], Throw FileReaderError))
  /\ (forall dataURL,
         readAsDataURL host file = Some dataURL ->
         loadImage host dataURL = None ->
         compressImageFileWithLimit host o fuel file
         = ([EvReadAsDataURL; EvLoadImage], Throw ImageLoadError)).
Proof.
  rewrite compress_image by assumption. split.
  - intros ->. reflexivity.
  - intros dataURL -> ->. reflexivity.
Qed.

Lemma unreadable_input_rejects_witness :
  compressImageFileWithLimit SampleMore.unreadable defaultOptions 0 Sample.photo
  = ([EvReadAsDataURL], Throw FileReaderError)
  /\ compressImageFileWithLimit SampleMore.undecodable defaultOptions 0
                                Sample.photo
     = ([EvReadAsDataURL; EvLoadImage], Throw ImageLoadError).
Proof.
  split.
  - apply (proj1 (unreadable_input_rejects SampleMore.unreadable defaultOptions
                    0 Sample.photo eq_refl)).
    reflexivity.
  - apply (proj2 (unreadable_input_rejects SampleMore.undecodable defaultOptions
                    0 Sample.photo eq_refl) "data:image/png;base64,AAAA"%string).
    + reflexivity.
    + reflexivity.
Defined.

(** ** The last stage: splitting, matching, renaming *)

Section Strings.

Local Open Scope string_scope.

Lemma split_nonempty (sep : ascii) (s : string) : JS.split sep s <> [].
Proof.
  destruct s as [| c rest]; cbn; [discriminate|].
  destruct (Ascii.eqb c sep); [discriminate|].
  destruct (JS.split sep rest); discriminate.
Qed.

Lemma split_cons_other (sep c : ascii) (rest : string) :
  Ascii.eqb c sep = false ->
  JS.split sep (String c rest)
  = String c (hd "" (JS.split sep rest)) :: tl (JS.split sep rest).
Proof.
  intro E. cbn [JS.split]. rewrite E.
  pose proof (split_nonempty sep rest) as Hne.
  destruct (JS.split sep rest); [contradiction | reflexivity].
Qed.

(** Before the first separator: one part, then the parts of the rest. *)
Lemma split_app (sep : ascii) (a b : string) :
  hasChar sep a = false ->
  JS.split sep (a ++ String sep b) = a :: JS.split sep b.
Proof.
  induction a as [| c a IH]; intro H.
  - cbn. now rewrite Ascii.eqb_refl.
  - cbn [hasChar] in H. apply orb_false_iff in H. destruct H as [Hc Ha].
    change (String c a ++ String sep b) with (String c (a ++ String sep b)).
    rewrite split_cons_other by assumption.
    rewrite (IH Ha). reflexivity.
Qed.

Lemma split_none (sep : ascii) (s : string) :
  hasChar sep s = false -> JS.split sep s = [s].
Proof.
  induction s as [| c s IH]; intro H; [reflexivity|].
  cbn [hasChar] in H. apply orb_false_iff in H. destruct H as [Hc Hs].
  rewrite split_cons_other by assumption.
  rewrite (IH Hs). reflexivity.
Qed.

Lemma lazyUpToSemicolon_app (a rest : string) :
  hasChar ";" a = false -> hasLineTerminator a = false ->
  JS.lazyUpToSemicolon (a ++ String ";" rest) = Some a.
Proof.
  induction a as [| c a IH]; intros Hs Hl; [reflexivity|].
  cbn [hasChar] in Hs. apply orb_false_iff in Hs. destruct Hs as [Hc Ha].
  cbn [hasLineTerminator] in Hl. apply orb_false_iff in Hl.
  destruct Hl as [Hlc Hla].
  change (String c a ++ String ";" rest) with (String c (a ++ String ";" rest)).
  cbn [JS.lazyUpToSemicolon]. rewrite Hc, Hlc, (IH Ha Hla). reflexivity.
Qed.

Lemma lazyUpToSemicolon_none (s : string) :
  hasChar ";" s = false -> JS.lazyUpToSemicolon s = None.
Proof.
  induction s as [| c s IH]; intro H; [reflexivity|].
  cbn [hasChar] in H. apply orb_false_iff in H. destruct H as [Hc Hs].
  cbn [JS.lazyUpToSemicolon]. rewrite Hc, (IH Hs).
  now destruct (JS.isLineTerminator c).
Qed.

Lemma matchColonGroup_none (s : string) :
  hasChar ";" s = false -> JS.matchColonGroup s = None.
Proof.
  induction s as [| c s IH]; intro H; [reflexivity|].
  cbn [hasChar] in H. apply orb_false_iff in H. destruct H as [Hc Hs].
  cbn [JS.matchColonGroup].
  rewrite (lazyUpToSemicolon_none s Hs), (IH Hs).
  now destruct (Ascii.eqb c ":").
Qed.

Lemma string_app_assoc (a b c : string) : (a ++ b) ++ c = a ++ b ++ c.
Proof. induction a as [| x a IH]; cbn; [reflexivity | now rewrite IH]. Qed.

Lemma hasChar_app (c : ascii) (a b : string) :
  hasChar c (a ++ b) = hasChar c a || hasChar c b.
Proof.
  induction a as [| x a IH]; cbn; [reflexivity|].
  now rewrite IH, orb_assoc.
Qed.

(** The renaming either replaces a trailing extension or keeps the name. *)
Lemma replaceTrailingExt_cases (r name : string) :
  (exists stem ext, name = stem ++ "." ++ ext /\ ext <> ""
                    /\ JS.allWord ext = true
                    /\ JS.replaceTrailingExt r name = stem ++ r)
  \/ JS.replaceTrailingExt r name = name.
Proof.
  induction name as [| c name IH]; [now right|].
  cbn [JS.replaceTrailingExt].
  destruct (Ascii.eqb c "." && JS.matchesWordsToEnd name) eqn:E.
  - left. apply andb_true_iff in E. destruct E as [Ec Em].
    apply Ascii.eqb_eq in Ec. subst c.
    apply matchesWordsToEnd_allWord in Em. destruct Em as [Hne Hw].
    exists "", name. auto.
  - destruct IH as [(stem & ext & -> & Hne & Hw & Hr) | Hr].
    + left. rewrite Hr. exists (String c stem), ext. auto.
    + right. now rewrite Hr.
Qed.

End Strings.

(** X13: [split] loses nothing: joining the parts with the separator gives
    the string back, no part contains the separator, and there is always at
    least one part. *)
Theorem split_then_join (sep : ascii) (s : string) :
  String.concat (String sep EmptyString) (JS.split sep s) = s
  /\ Forall (fun part => hasChar sep part = false) (JS.split sep s)
  /\ JS.split sep s <> [].
Proof.
  split; [|split; [|apply split_nonempty]].
  - assert (Hcons : forall (a b : string) (l : list string),
              String.concat (String sep EmptyString) (a :: b :: l)
              = (a ++ String sep EmptyString
                   ++ String.concat (String sep EmptyString) (b :: l))%string)
      by reflexivity.
    induction s as [| c s IH]; [reflexivity|].
    pose proof (split_nonempty sep s) as Hne.
    cbn [JS.split]. destruct (Ascii.eqb c sep) eqn:E.
    + apply Ascii.eqb_eq in E. subst c.
      destruct (JS.split sep s) as [| hd tl]; [contradiction|].
      rewrite Hcons, IH. reflexivity.
    + destruct (JS.split sep s) as [| hd tl]; [contradiction|].
      destruct tl as [| x tl].
      * cbn in IH. cbn. now rewrite IH.
      * rewrite Hcons in *. rewrite <- IH. reflexivity.
  - induction s as [| c s IH]; [repeat constructor|].
    cbn [JS.split]. destruct (Ascii.eqb c sep) eqn:E.
    + constructor; [reflexivity | exact IH].
    + pose proof (split_nonempty sep s) as Hne.
      destruct (JS.split sep s) as [| hd tl]; [contradiction|].
      inversion IH as [| ? ? Hhd Htl]; subst.
      constructor; [|assumption]. cbn. now rewrite E, Hhd.
Qed.

(** X14: the data URL of a canvas, "data:<type>;base64,<payload>", is taken
    apart as meant: the returned file has the type of the header and the
    bytes that [atob] makes of the payload, and [atob] is called once. *)
Theorem canvas_data_url_becomes_file (host : Host) (file : File)
  (mime payload bstr : string)
  (Hsemi : hasChar ";" mime = false)
  (Hcomma : hasChar "," mime = false)
  (Hline : hasLineTerminator mime = false)
  (Hpayload : hasChar "," payload = false)
  (Hatob : atob host payload = Some bstr) :
  dataURLToFile host file ("data:" ++ mime ++ ";base64," ++ payload)%string
  = ([EvAtob],
     Return {| file_bits := list_byte_of_string bstr;
               file_name := JS.replaceTrailingExt ".webp" (file_name file);
               file_type := mime |}).
Proof.
  assert (Hsplit : JS.split "," ("data:" ++ mime ++ ";base64," ++ payload)%string
                   = [("data:" ++ mime ++ ";base64")%string; payload]).
  { replace ("data:" ++ mime ++ ";base64," ++ payload)%string
      with (("data:" ++ mime ++ ";base64") ++ String "," payload)%string.
    - rewrite split_app, (split_none "," payload Hpayload); [reflexivity|].
      rewrite !hasChar_app, Hcomma. reflexivity.
    - rewrite !string_app_assoc. reflexivity. }
  rewrite dataURLToFile_cases. unfold headerOf, payloadOf.
  rewrite Hsplit. cbn [nth].
  assert (Hmatch : JS.matchColonGroup ("data:" ++ mime ++ ";base64")%string
                   = Some mime).
  { cbn.
    now rewrite (lazyUpToSemicolon_app mime "base64" Hsemi Hline). }
  rewrite Hmatch, Hatob. reflexivity.
Qed.

Lemma canvas_data_url_becomes_file_witness :
  dataURLToFile (Sample.host 500 400 10) Sample.photo
                "data:image/jpeg;base64,TWFuTQ=="
  = ([EvAtob],
     Return {| file_bits := list_byte_of_string "ManM";
               file_name := "photo.webp";
               file_type := "image/jpeg" |}).
Proof.
  apply (canvas_data_url_becomes_file (Sample.host 500 400 10) Sample.photo
           "image/jpeg" "TWFuTQ==" "ManM"); reflexivity.
Defined.

(** X15: a data URL whose header (the text before the first comma) has no
    semicolon makes the last stage throw on the null match, before [atob] is
    called; this is what happens with the "data:," of an empty canvas. *)
Theorem header_without_semicolon_throws (host : Host) (file : File)
  (url : string)
  (Hheader : hasChar ";" (headerOf url) = false) :
  dataURLToFile host file url = ([], Throw NullMatchError).
Proof.
  rewrite dataURLToFile_cases, (matchColonGroup_none _ Hheader). reflexivity.
Qed.

Lemma header_without_semicolon_throws_witness :
  dataURLToFile (Sample.host 500 400 10) Sample.photo "data:,"
  = ([], Throw NullMatchError).
Proof.
  apply (header_without_semicolon_throws (Sample.host 500 400 10) Sample.photo
           "data:,").
  reflexivity.
Defined.

(** X17: renaming is idempotent: the name of a result, given to the function
    again, stays as it is. *)
Theorem renaming_twice_is_renaming_once (name : string) :
  JS.replaceTrailingExt ".webp" (JS.replaceTrailingExt ".webp" name)
  = JS.replaceTrailingExt ".webp" name.
Proof.
  destruct (replaceTrailingExt_cases ".webp" name)
    as [(stem & ext & -> & Hne & Hw & Hr) | Hr].
  - rewrite Hr.
    change (stem ++ ".webp")%string with (stem ++ "." ++ "webp")%string.
    apply replaceTrailingExt_match; [discriminate | reflexivity].
  - now rewrite !Hr.
Qed.

(** X18: whatever the options and whatever the browser answers, a returned
    file carries the bytes that [atob] made of the payload of the last data
    URL, and the original name with its trailing extension replaced by
    ".webp": the name depends neither on the configured type nor on the
    type the canvas produced. *)
Theorem returned_file_contents (host : Host) (o : Options) (fuel : nat)
  (file out : File)
  (Himage : JS.startsWith (file_type file) "image/" = true)
  (Hreturn : outcome (compressImageFileWithLimit host o fuel file) = Return out) :
  file_name out = JS.replaceTrailingExt ".webp" (file_name file)
  /\ exists (dataURL : string) (img : HTMLImageElement) (last : Q)
            (url bstr : string),
      readAsDataURL host file = Some dataURL
      /\ loadImage host dataURL = Some img
      /\ lastAttempt (trace (compressImageFileWithLimit host o fuel file))
         = Some last
      /\ (let p := planDimensions o (img_width img) (img_height img) in
          canvasToDataURL host img (plan_width p) (plan_height p) (mimeType o) last)
         = Some url
      /\ atob host (payloadOf url) = Some bstr
      /\ file_bits out = list_byte_of_string bstr.
Proof.
  rewrite compress_image in * by assumption.
  destruct (readAsDataURL host file) as [dataURL|] eqn:Hread; [|discriminate].
  destruct (loadImage host dataURL) as [img|] eqn:Hload; [|discriminate].
  destruct (afterDecode_qualities host o fuel file img) as (_ & _ & Hl).
  cbv zeta in Hl. rewrite Hl.
  unfold afterDecode in Hreturn. cbv zeta in Hreturn.
  cbn [outcome snd] in Hreturn.
  set (p := planDimensions o (img_width img) (img_height img)) in *.
  destruct (outcome (encodeLoop host o img (plan_width p) (plan_height p) fuel
                                (initialQuality o))) as [r | e |] eqn:Eo;
    try discriminate.
  destruct (encodeLoop_returns_last host o img (plan_width p) (plan_height p)
              fuel (initialQuality o) r Eo) as (last & Hlast & Hc & _).
  rewrite dataURLToFile_cases in Hreturn.
  destruct (JS.matchColonGroup (headerOf (fst r))); [|discriminate].
  destruct (atob host (payloadOf (fst r))) as [bstr|] eqn:Ha; [|discriminate].
  cbn in Hreturn. injection Hreturn as <-. cbn [file_name file_bits].
  split; [reflexivity|].
  exists dataURL, img, last, (fst r), bstr. auto 10.
Qed.

Lemma returned_file_contents_witness :
  let o := Sample.tightOptions "image/jpeg" in
  let h := Sample.host 500 400 10 in
  let out := {| file_bits := list_byte_of_string (Sample.repeatString 5 "Man");
                file_name := "photo.webp";
                file_type := "image/jpeg" |} in
  file_name out = JS.replaceTrailingExt ".webp" (file_name Sample.photo)
  /\ exists (dataURL : string) (img : HTMLImageElement) (last : Q)
            (url bstr : string),
      readAsDataURL h Sample.photo = Some dataURL
      /\ loadImage h dataURL = Some img
      /\ lastAttempt (trace (compressImageFileWithLimit h o 8 Sample.photo))
         = Some last
      /\ (let p := planDimensions o (img_width img) (img_height img) in
          canvasToDataURL h img (plan_width p) (plan_height p) (mimeType o) last)
         = Some url
      /\ atob h (payloadOf url) = Some bstr
      /\ file_bits out = list_byte_of_string bstr.
Proof.
  apply (returned_file_contents (Sample.host 500 400 10)
           (Sample.tightOptions "image/jpeg") 8 Sample.photo).
  - reflexivity.
  - vm_compute. reflexivity.
Defined.

(** ** The model-list route *)

Section RouteProperties.

Context {Claims Runtime ModelList Content Extra : Type}.
Variable OpenRouter : string.
Variable InternalServerError : string.
Variable AGENT_RUNTIME_ERROR_SET : string -> bool.
Variable env : @Route.Env Claims Runtime ModelList Content Extra.
Variable provider : string.
Variable jwtPayload : @Route.JwtPayload Claims.

Local Abbreviation run :=
  (Route.GET OpenRouter InternalServerError AGENT_RUNTIME_ERROR_SET env provider
             jwtPayload).
Local Abbreviation start := (Route.initRuntime OpenRouter env provider jwtPayload).

Lemma noNeedAPIKey_iff :
  Route.noNeedAPIKey OpenRouter provider = true <-> provider = OpenRouter.
Proof.
  unfold Route.noNeedAPIKey. cbn. rewrite orb_false_r, String.eqb_eq.
  split; congruence.
Qed.

Lemma orElse_truthy (a : option string) (s : string) :
  s <> EmptyString -> Route.truthy (Route.orElse a (Some s)) = true.
Proof.
  intro Hs. unfold Route.orElse.
  destruct (Route.truthy a) eqn:E; [exact E|].
  destruct s; [contradiction | reflexivity].
Qed.

(** The calls of a run are those of the first step, then [models] and the
    console. *)
Lemma GET_trace :
  exists tail,
    fst run = fst start ++ tail /\ forallb (fun c => negb (Route.isInit c)) tail = true.
Proof.
  unfold Route.GET.
  destruct start as [t [[| e] | agentRuntime]].
  - eexists. split; reflexivity.
  - eexists. split; [reflexivity|]. cbn.
    now destruct (AGENT_RUNTIME_ERROR_SET _).
  - destruct (Route.models env agentRuntime) as [[| e] | list].
    + eexists. split; reflexivity.
    + eexists. split; [reflexivity|]. cbn.
      now destruct (AGENT_RUNTIME_ERROR_SET _).
    + eexists. split; reflexivity.
Qed.

End RouteProperties.

(** X19: without a [createRuntime], the runtime is initialised once, first,
    for the requested provider, with the caller's payload in which only the
    API key may differ: for OpenRouter the key is never empty (the caller's
    key when it has one, the placeholder otherwise); for every other provider
    the key is passed as it came, even when it is missing. *)
Theorem listing_api_key {Claims Runtime ModelList Content Extra : Type}
  (OpenRouter InternalServerError : string)
  (AGENT_RUNTIME_ERROR_SET : string -> bool)
  (env : @Route.Env Claims Runtime ModelList Content Extra)
  (provider : string) (jwtPayload : @Route.JwtPayload Claims)
  (Hnone : Route.createRuntime env = None) :
  exists payload tail,
    fst (Route.GET OpenRouter InternalServerError AGENT_RUNTIME_ERROR_SET env
                   provider jwtPayload)
    = Route.CallInit provider payload :: tail
    /\ forallb (fun c => negb (Route.isInit c)) tail = true
    /\ Route.claims payload = Route.claims jwtPayload
    /\ (provider = OpenRouter ->
        Route.truthy (Route.apiKey payload) = true
        /\ (Route.truthy (Route.apiKey jwtPayload) = true ->
            Route.apiKey payload = Route.apiKey jwtPayload)
        /\ (Route.truthy (Route.apiKey jwtPayload) = false ->
            Route.apiKey payload
            = Some "dont-need-api-key-for-model-list"%string))
    /\ (provider <> OpenRouter ->
        Route.apiKey payload = Route.apiKey jwtPayload).
Proof.
  destruct (GET_trace OpenRouter InternalServerError AGENT_RUNTIME_ERROR_SET env
                      provider jwtPayload) as (tail & Ht & Htail).
  unfold Route.initRuntime in Ht. rewrite Hnone in Ht. cbn [fst app] in Ht.
  eexists. exists tail. split; [exact Ht|].
  split; [exact Htail|]. split; [reflexivity|].
  cbn [Route.apiKey]. split.
  - intro Hp. apply (noNeedAPIKey_iff OpenRouter) in Hp. rewrite Hp.
    split; [apply orElse_truthy; discriminate|].
    unfold Route.orElse. split; intros ->; reflexivity.
  - intro Hp.
    destruct (Route.noNeedAPIKey OpenRouter provider) eqn:E; [|reflexivity].
    apply noNeedAPIKey_iff in E. contradiction.
Qed.

Lemma listing_api_key_witness :
  exists payload tail,
    fst (Route.GET "openrouter" "InternalServerError" Route.sampleSet
                   Route.sampleEnv "openrouter" (Route.mkJwt None tt))
    = Route.CallInit "openrouter" payload :: tail
    /\ Route.truthy (Route.apiKey payload) = true
    /\ snd (Route.GET "openrouter" "InternalServerError" Route.sampleSet
                      Route.sampleEnv "openrouter" (Route.mkJwt None tt))
       = Route.Responded (Route.JsonResponse ["some-model"%string]).
Proof.
  destruct (listing_api_key "openrouter" "InternalServerError" Route.sampleSet
              Route.sampleEnv "openrouter" (Route.mkJwt None tt) eq_refl)
    as (payload & tail & Ht & _ & _ & Hopen & _).
  exists payload, tail. split; [exact Ht|].
  split; [exact (proj1 (Hopen eq_refl)) | reflexivity].
Defined.

(** X20: a [createRuntime] handed to the handler takes precedence: it is
    called first, with the caller's payload as it came, and
    [initModelRuntimeWithUserPayload] is not called at all. *)
Theorem custom_runtime_takes_precedence
  {Claims Runtime ModelList Content Extra : Type}
  (OpenRouter InternalServerError : string)
  (AGENT_RUNTIME_ERROR_SET : string -> bool)
  (env : @Route.Env Claims Runtime ModelList Content Extra)
  (provider : string) (jwtPayload : @Route.JwtPayload Claims)
  (create : Route.JwtPayload Claims -> Route.Thrown Content Extra + Runtime)
  (Hsome : Route.createRuntime env = Some create) :
  exists tail,
    fst (Route.GET OpenRouter InternalServerError AGENT_RUNTIME_ERROR_SET env
                   provider jwtPayload)
    = Route.CallCreateRuntime jwtPayload :: tail
    /\ forallb (fun c => negb (Route.isInit c)) tail = true.
Proof.
  destruct (GET_trace OpenRouter InternalServerError AGENT_RUNTIME_ERROR_SET env
                      provider jwtPayload) as (tail & Ht & Htail).
  unfold Route.initRuntime in Ht. rewrite Hsome in Ht. cbn [fst app] in Ht.
  exists tail. split; assumption.
Qed.

Lemma custom_runtime_takes_precedence_witness :
  exists tail,
    fst (Route.GET "openrouter" "InternalServerError" Route.sampleSet
           (Route.mkEnv (Some (fun _ => inr 7%nat))
              (Route.initModelRuntimeWithUserPayload Route.sampleEnv)
              (Route.models Route.sampleEnv))
           "openai" (Route.mkJwt None tt))
    = Route.CallCreateRuntime (Route.mkJwt None tt) :: tail
    /\ forallb (fun c => negb (Route.isInit c)) tail = true.
Proof.
  apply (custom_runtime_takes_precedence "openrouter" "InternalServerError"
           Route.sampleSet _ "openai" (Route.mkJwt None tt)
           (fun _ => inr 7%nat)).
  reflexivity.
Defined.

(** X21: the handler turns what is thrown into a response.  Let [first] be
    what creating the runtime gives (by [createRuntime] on the caller's
    payload, or else by [initModelRuntimeWithUserPayload] on the payload with
    the key chosen for the provider).  When runtime creation, or [models] on
    the created runtime, throws a value, the answer is the error response
    made of that very value: its [errorType], or the internal-server-error
    type when it has none; its [error], or the whole value when that is
    missing; its other fields; and the requested provider.  It is logged
    once, with [console.warn] when the type is in [AGENT_RUNTIME_ERROR_SET]
    and with [console.error] otherwise, and [models] is not called after a
    failed creation.  A thrown [null] or [undefined] makes the handler
    reject, with nothing logged; a successful listing is answered with the
    list and logs nothing. *)
Theorem failures_become_error_responses
  {Claims Runtime ModelList Content Extra : Type}
  (OpenRouter InternalServerError : string)
  (AGENT_RUNTIME_ERROR_SET : string -> bool)
  (env : @Route.Env Claims Runtime ModelList Content Extra)
  (provider : string) (jwtPayload : @Route.JwtPayload Claims)
  (first : Route.Thrown Content Extra + Runtime)
  (Hfirst :
     match Route.createRuntime env with
     | Some create => create jwtPayload = first
     | None =>
         Route.initModelRuntimeWithUserPayload env provider
           (Route.mkJwt
              (if String.eqb provider OpenRouter
               then (if Route.truthy (Route.apiKey jwtPayload)
                     then Route.apiKey jwtPayload
                     else Some "dont-need-api-key-for-model-list"%string)
               else Route.apiKey jwtPayload)
              (Route.claims jwtPayload))
         = first
     end) :
  let run := Route.GET OpenRouter InternalServerError AGENT_RUNTIME_ERROR_SET
                       env provider jwtPayload in
  let type (e : Route.ErrorPayload Content Extra) :=
    match Route.errorType e with
    | Some t => t
    | None => InternalServerError
    end in
  let response (e : Route.ErrorPayload Content Extra) :=
    Route.Responded
      (Route.ErrorResponse (type e)
         (match Route.errorContent e with
          | Some c => Route.TheContent c
          | None => Route.TheWhole e
          end)
         (Route.res e) provider) in
  let logged (e : Route.ErrorPayload Content Extra)
    : list (Route.Call Claims Runtime) :=
    [if AGENT_RUNTIME_ERROR_SET (type e)
     then Route.ConsoleWarn provider (type e)
     else Route.ConsoleError provider (type e)] in
  let isModels (c : Route.Call Claims Runtime) :=
    match c with Route.CallModels _ => true | _ => false end in
  (forall e, first = inl (Route.Value e) ->
             snd run = response e
             /\ filter Route.isConsole (fst run) = logged e
             /\ filter isModels (fst run) = [])
  /\ (forall runtime e,
         first = inr runtime ->
         Route.models env runtime = inl (Route.Value e) ->
         snd run = response e
         /\ filter Route.isConsole (fst run) = logged e)
  /\ (first = inl Route.Nullish
      \/ (exists runtime, first = inr runtime
                          /\ Route.models env runtime = inl Route.Nullish) ->
      snd run = Route.Rejected /\ filter Route.isConsole (fst run) = [])
  /\ (forall runtime list,
         first = inr runtime ->
         Route.models env runtime = inr list ->
         snd run = Route.Responded (Route.JsonResponse list)
         /\ filter Route.isConsole (fst run) = []).
Proof.
  cbv zeta.
  assert (Hstart : exists call,
            Route.isConsole call = false
            /\ match call with Route.CallModels _ => false | _ => true end = true
            /\ Route.initRuntime OpenRouter env provider jwtPayload
               = ([call], first)).
  { unfold Route.initRuntime.
    destruct (Route.createRuntime env) as [create|].
    - exists (Route.CallCreateRuntime jwtPayload). rewrite Hfirst.
      repeat split.
    - eexists (Route.CallInit provider _).
      split; [reflexivity | split; [reflexivity|]].
      unfold Route.noNeedAPIKey, Route.orElse. cbn [existsb].
      rewrite orb_false_r, String.eqb_sym, Hfirst. reflexivity. }
  destruct Hstart as (call & Hcall & Hnot & Hstart).
  unfold Route.GET. rewrite Hstart.
  repeat split.
  - destruct first as [[| e'] | runtime]; try discriminate.
    injection H as ->. reflexivity.
  - destruct first as [[| e'] | runtime]; try discriminate.
    injection H as ->. cbn. rewrite Hcall.
    now destruct (AGENT_RUNTIME_ERROR_SET _).
  - destruct first as [[| e'] | runtime']; try discriminate.
    injection H as ->. cbn.
    destruct call; try discriminate;
      now destruct (AGENT_RUNTIME_ERROR_SET _).
  - subst first. rewrite H0. reflexivity.
  - subst first. rewrite H0. cbn. rewrite Hcall.
    now destruct (AGENT_RUNTIME_ERROR_SET _).
  - destruct H as [-> | (runtime & -> & Hm)]; [reflexivity|].
    rewrite Hm. reflexivity.
  - destruct H as [-> | (runtime & -> & Hm)].
    + cbn. now rewrite Hcall.
    + rewrite Hm. cbn. now rewrite Hcall.
  - subst first. rewrite H0. reflexivity.
  - subst first. rewrite H0. cbn. now rewrite Hcall.
Qed.

(** Without a key the sample deployment throws for "openai", and the answer
    is made of what it threw; a [models] that throws [undefined] makes the
    handler reject. *)
Lemma failures_become_error_responses_witness :
  snd (Route.GET "openrouter" "InternalServerError" Route.sampleSet
                 Route.sampleEnv "openai" (Route.mkJwt None tt))
  = Route.Responded
      (Route.ErrorResponse "InvalidProviderAPIKey"
         (Route.TheWhole
            (Route.mkPayload (Some "InvalidProviderAPIKey"%string) None tt))
         tt "openai")
  /\ snd (Route.GET "openrouter" "InternalServerError" Route.sampleSet
                    Route.brokenEnv "openai" (Route.mkJwt None tt))
     = Route.Rejected.
Proof.
  split.
  - apply (proj1 (failures_become_error_responses "openrouter"
                    "InternalServerError" Route.sampleSet Route.sampleEnv
                    "openai" (Route.mkJwt None tt)
                    (inl (Route.Value
                            (Route.mkPayload (Some "InvalidProviderAPIKey"%string)
                                             None tt)))
                    eq_refl)
                 (Route.mkPayload (Some "InvalidProviderAPIKey"%string) None tt)
                 eq_refl).
  - apply (proj1 (proj2 (proj2 (failures_become_error_responses "openrouter"
                    "InternalServerError" Route.sampleSet Route.brokenEnv
                    "openai" (Route.mkJwt None tt) (inr 1%nat) eq_refl)))).
    right. exists 1%nat. split; reflexivity.
Defined.

(** * The function over any arithmetic *)

Section GenericLoop.

Variable A : Arith.
Variable host : Host.
Variable o : Options.
Variable img : HTMLImageElement.
Variables width height : Z.

Local Open Scope Q_scope.

Local Abbreviation once := (encodeOnce host img width height (mimeType o)).
Local Abbreviation loop := (Generic.encodeLoop A host o img width height).
Local Abbreviation canvas := (canvasToDataURL host img width height (mimeType o)).
Local Abbreviation less := (fun q : Q => arith_sub A q (qualityStep o)).

(** The loop, one pass unfolded. *)
Lemma generic_encodeLoop_step (fuel : nat) (quality : Q) :
  loop fuel quality =
  match outcome (once quality) with
  | Return r =>
      if repeats o r (less quality) then
        match fuel with
        | O => (trace (once quality), OutOfFuel)
        | S fuel' =>
            (trace (once quality) ++ trace (loop fuel' (less quality)),
             outcome (loop fuel' (less quality)))
        end
      else (trace (once quality), Return r)
  | Throw e => (trace (once quality), Throw e)
  | OutOfFuel => (trace (once quality), OutOfFuel)
  end.
Proof.
  assert (E : loop fuel quality =
              bind (once quality) (fun r =>
                if repeats o r (less quality)
                then match fuel with
                     | O => outOfFuel
                     | S fuel' => loop fuel' (less quality)
                     end
                else ret r))
    by (destruct fuel; reflexivity).
  rewrite E, (M_eta (once quality)) at 1.
  destruct (outcome (once quality)) as [r | e |]; try reflexivity.
  rewrite bind_Return.
  destruct (repeats o r (less quality)).
  - destruct fuel; cbn; [now rewrite app_nil_r | reflexivity].
  - cbn. now rewrite app_nil_r.
Qed.

(** The loop ends when some decrement brings the quality to the floor. *)
Lemma generic_encodeLoop_ends (fuel : nat) (quality : Q) :
  (exists n, (n <= fuel)%nat
             /\ qualityAfter A (qualityStep o) (S n) quality <= minQuality o) ->
  outcome (loop fuel quality) <> OutOfFuel.
Proof.
  revert quality.
  induction fuel as [| fuel IH]; intros quality (n & Hn & Hq);
    rewrite generic_encodeLoop_step;
    pose proof (encodeOnce_fuel host o img width height quality) as Hno;
    destruct (outcome (once quality)) as [r | e |];
    try discriminate; try contradiction.
  - destruct (repeats o r (less quality)) eqn:E; [|discriminate].
    apply repeats_true in E. destruct E as [_ Habove].
    assert (n = 0%nat) by lia. subst n. cbn in Hq.
    exfalso. exact (Qlt_not_le _ _ Habove Hq).
  - destruct (repeats o r (less quality)) eqn:E; [|discriminate].
    apply repeats_true in E. destruct E as [_ Habove].
    cbn [outcome snd]. apply IH.
    destruct n as [| n].
    + cbn in Hq. exfalso. exact (Qlt_not_le _ _ Habove Hq).
    + exists n. split; [lia | exact Hq].
Qed.

(** What the loop returns is what the canvas produced at the quality of the
    last attempt, and the test of the [while] failed there. *)
Lemma generic_encodeLoop_returns_last (fuel : nat) (quality : Q)
      (r : string * Z) :
  outcome (loop fuel quality) = Return r ->
  exists last : Q,
    lastAttempt (trace (loop fuel quality)) = Some last
    /\ canvas last = Some (fst r)
    /\ fetchBlobSize host (fst r) = Some (snd r)
    /\ (last = quality \/ minQuality o < last)
    /\ (inject_Z (snd r) <= maxSizeBytes o \/ less last <= minQuality o).
Proof.
  revert quality. induction fuel as [| fuel IH]; intro quality;
    rewrite generic_encodeLoop_step;
    destruct (encodeOnce_attempts host o img width height quality)
      as (_ & _ & Hl);
    destruct (outcome (once quality)) as [r0 | e |] eqn:Eo;
    try discriminate.
  - destruct (repeats o r0 (less quality)) eqn:E; [discriminate|].
    cbn [outcome trace fst snd]. intro H. injection H as <-.
    apply encodeOnce_Return in Eo. destruct Eo as [Hc Hf].
    exists quality. repeat split; auto.
    unfold repeats in E. apply andb_false_iff in E.
    rewrite !gt_false in E. exact E.
  - destruct (repeats o r0 (less quality)) eqn:E.
    + cbn [outcome trace fst snd]. intro H.
      apply repeats_true in E. destruct E as [_ Hq].
      destruct (IH _ H) as (last & Hlast & Hc & Hf & Hrange & Hstop).
      exists last. rewrite lastAttempt_app, Hlast.
      repeat split; auto.
      right. destruct Hrange as [-> | Hrange]; assumption.
    + cbn [outcome trace fst snd]. intro H. injection H as <-.
      apply encodeOnce_Return in Eo. destruct Eo as [Hc Hf].
      exists quality. repeat split; auto.
      unfold repeats in E. apply andb_false_iff in E.
      rewrite !gt_false in E. exact E.
Qed.

(** When every attempt succeeds, the loop does not throw. *)
Lemma generic_encodeLoop_no_throw (fuel : nat) (quality : Q) :
  (forall q, q = quality \/ minQuality o < q ->
     exists url size, canvas q = Some url /\ fetchBlobSize host url = Some size) ->
  forall e, outcome (loop fuel quality) <> Throw e.
Proof.
  revert quality. induction fuel as [| fuel IH]; intros quality Hok e;
    rewrite generic_encodeLoop_step;
    destruct (Hok quality (or_introl eq_refl)) as (url & size & Hc & Hf);
    assert (Eo : outcome (once quality) = Return (url, size))
      by (apply encodeOnce_Return; auto);
    rewrite Eo.
  - destruct (repeats o (url, size) (less quality)); discriminate.
  - destruct (repeats o (url, size) (less quality)) eqn:E; [|discriminate].
    cbn [outcome snd]. apply IH.
    apply repeats_true in E. destruct E as [_ Hq].
    intros q [-> | Hq']; apply Hok; right; assumption.
Qed.

End GenericLoop.

Section GenericWhole.

Variable A : Arith.
Variable host : Host.
Variable o : Options.
Variable fuel : nat.
Variable file : File.

Lemma generic_compress_image :
  JS.startsWith (file_type file) "image/" = true ->
  Generic.compressImageFileWithLimit A host o fuel file =
  match readAsDataURL host file with
  | None => ([EvReadAsDataURL], Throw FileReaderError)
  | Some dataURL =>
      match loadImage host dataURL with
      | None => ([EvReadAsDataURL; EvLoadImage], Throw ImageLoadError)
      | Some img => afterDecodeIn A host o fuel file img
      end
  end.
Proof.
  intro H.
  unfold Generic.compressImageFileWithLimit, fileToDataURL, dataURLToImage.
  rewrite H. cbn [negb].
  destruct (readAsDataURL host file) as [dataURL|]; [|reflexivity].
  cbn. destruct (loadImage host dataURL) as [img|]; [|reflexivity].
  cbn. unfold afterDecodeIn. cbv zeta.
  set (run := Generic.encodeLoop A host o img _ _ fuel (initialQuality o)).
  rewrite (M_eta run) at 1.
  destruct (outcome run) as [r | e |]; cbn.
  - destruct (dataURLToFile host file (fst r)) as [t' r']. reflexivity.
  - now rewrite app_nil_r.
  - now rewrite app_nil_r.
Qed.

(** The last attempt of a run that decoded the image is that of its loop. *)
Lemma afterDecodeIn_last (img : HTMLImageElement) :
  let p := Generic.planDimensions A o (img_width img) (img_height img) in
  lastAttempt (trace (afterDecodeIn A host o fuel file img))
  = lastAttempt
      (trace (Generic.encodeLoop A host o img (plan_width p) (plan_height p)
                                 fuel (initialQuality o))).
Proof.
  cbv zeta. unfold afterDecodeIn. cbv zeta. cbn [trace fst].
  set (run := Generic.encodeLoop A host o img _ _ fuel (initialQuality o)).
  rewrite !lastAttempt_app.
  assert (Hnone : lastAttempt
                    match outcome run with
                    | Return r => trace (dataURLToFile host file (fst r))
                    | _ => []
                    end = None).
  { destruct (outcome run) as [r | e |]; try reflexivity.
    apply dataURLToFile_trace. }
  rewrite Hnone. cbn. now destruct (lastAttempt (trace run)).
Qed.

End GenericWhole.

(** With exact arithmetic, [Generic] is the first model. *)
Lemma exact_encodeLoop (host : Host) (o : Options) (img : HTMLImageElement)
      (width height : Z) (fuel : nat) (quality : Q) :
  Generic.encodeLoop exact host o img width height fuel quality
  = encodeLoop host o img width height fuel quality.
Proof. reflexivity. Qed.

Lemma exact_compressImageFileWithLimit (host : Host) (o : Options) (fuel : nat)
      (file : File) :
  Generic.compressImageFileWithLimit exact host o fuel file
  = compressImageFileWithLimit host o fuel file.
Proof.
  destruct (JS.startsWith (file_type file) "image/") eqn:E.
  - rewrite generic_compress_image, compress_image by assumption.
    destruct (readAsDataURL host file) as [dataURL|]; [|reflexivity].
    destruct (loadImage host dataURL) as [img|]; [|reflexivity].
    unfold afterDecodeIn, afterDecode. cbv zeta.
    change (Generic.planDimensions exact o (img_width img) (img_height img))
      with (planDimensions o (img_width img) (img_height img)).
    now rewrite exact_encodeLoop.
  - unfold Generic.compressImageFileWithLimit. rewrite E.
    now rewrite compress_not_image.
Qed.

(** C4: when every attempt (at the initial quality and at every quality above
    the floor) yields a well-formed data URL whose blob is over the budget,
    and the decrements bring the quality down to the floor (after at most
    [fuel + 1] of them), the call returns normally: the last attempt was made
    at a quality whose decrement is at or below the floor, and the returned
    file holds the bytes of that last, oversized, data URL.  This holds
    whatever the arithmetic of the decrement: the doubles of the code or
    exact numbers. *)
Theorem oversized_result_is_returned (A : Arith) (host : Host) (o : Options)
  (fuel : nat) (file : File) (dataURL : string) (img : HTMLImageElement)
  (Himage : JS.startsWith (file_type file) "image/" = true)
  (Hread : readAsDataURL host file = Some dataURL)
  (Hload : loadImage host dataURL = Some img)
  (Hfloor : exists n, (n <= fuel)%nat
                      /\ (qualityAfter A (qualityStep o) (S n) (initialQuality o)
                          <= minQuality o)%Q) :
  let p := Generic.planDimensions A o (img_width img) (img_height img) in
  let canvas := canvasToDataURL host img (plan_width p) (plan_height p)
                                (mimeType o) in
  (forall q : Q,
      q = initialQuality o \/ (minQuality o < q)%Q ->
      exists url size outMime bstr,
        canvas q = Some url
        /\ fetchBlobSize host url = Some size
        /\ (maxSizeBytes o < inject_Z size)%Q
        /\ JS.matchColonGroup (headerOf url) = Some outMime
        /\ atob host (payloadOf url) = Some bstr) ->
  let run := Generic.compressImageFileWithLimit A host o fuel file in
  exists last url size outMime bstr,
    lastAttempt (trace run) = Some last
    /\ (arith_sub A last (qualityStep o) <= minQuality o)%Q
    /\ canvas last = Some url
    /\ fetchBlobSize host url = Some size
    /\ (maxSizeBytes o < inject_Z size)%Q
    /\ JS.matchColonGroup (headerOf url) = Some outMime
    /\ atob host (payloadOf url) = Some bstr
    /\ outcome run =
       Return {| file_bits := list_byte_of_string bstr;
                 file_name := JS.replaceTrailingExt ".webp" (file_name file);
                 file_type := outMime |}.
Proof.
  cbv zeta. intro Hover.
  rewrite generic_compress_image, Hread, Hload by assumption.
  rewrite afterDecodeIn_last.
  unfold afterDecodeIn. cbv zeta. cbn [outcome snd].
  set (p := Generic.planDimensions A o (img_width img) (img_height img)) in *.
  set (run := Generic.encodeLoop A host o img (plan_width p) (plan_height p)
                                 fuel (initialQuality o)).
  assert (Hends : outcome run <> OutOfFuel)
    by (apply generic_encodeLoop_ends; exact Hfloor).
  assert (Hno : forall e, outcome run <> Throw e).
  { apply generic_encodeLoop_no_throw. intros q Hq.
    destruct (Hover q Hq) as (url & size & _ & _ & Hc & Hf & _).
    exists url, size. auto. }
  destruct (outcome run) as [r | e |] eqn:Eo;
    [| exfalso; exact (Hno e eq_refl) | contradiction].
  destruct (generic_encodeLoop_returns_last A host o img (plan_width p)
              (plan_height p) fuel (initialQuality o) r Eo)
    as (last & Hlast & Hc & Hf & Hrange & Hstop).
  fold run in Hlast.
  destruct (Hover last Hrange)
    as (url & size & outMime & bstr & Hc' & Hf' & Hbig & Hmime & Hatob).
  rewrite Hc in Hc'. injection Hc' as Eurl.
  rewrite Eurl in Hf. rewrite Hf' in Hf. injection Hf as Esize.
  exists last, url, size, outMime, bstr.
  rewrite Hlast, Eurl, dataURLToFile_cases, Hmime, Hatob.
  repeat split; try assumption.
  - destruct Hstop as [Hsmall | Hstop]; [|assumption].
    rewrite <- Esize in Hsmall. exfalso. exact (Qlt_not_le _ _ Hbig Hsmall).
  - congruence.
Qed.

(** In doubles: the budget of ten bytes is never met, the sixth decrement
    of 0.92 by 0.07 is the first at or below 0.5, and the sixth encoding is
    returned. *)
Lemma oversized_result_is_returned_witness :
  let o := Binary64.options (Sample.tightOptions "image/png") in
  let h := Sample.host 3000 2000 10 in
  let run := Generic.compressImageFileWithLimit Binary64.arith h o 8
                                                Sample.photo in
  exists last url size outMime bstr,
    lastAttempt (trace run) = Some last
    /\ (arith_sub Binary64.arith last (qualityStep o) <= minQuality o)%Q
    /\ canvasToDataURL h (mkImage 3000 2000) 1152 768 (mimeType o) last = Some url
    /\ fetchBlobSize h url = Some size
    /\ (maxSizeBytes o < inject_Z size)%Q
    /\ JS.matchColonGroup (headerOf url) = Some outMime
    /\ atob h (payloadOf url) = Some bstr
    /\ outcome run =
       Return {| file_bits := list_byte_of_string bstr;
                 file_name := JS.replaceTrailingExt ".webp" (file_name Sample.photo);
                 file_type := outMime |}.
Proof.
  apply (oversized_result_is_returned Binary64.arith (Sample.host 3000 2000 10)
           (Binary64.options (Sample.tightOptions "image/png")) 8 Sample.photo
           "data:image/png;base64,AAAA" (mkImage 3000 2000)
           eq_refl eq_refl eq_refl).
  - exists 5%nat. split; [lia | vm_compute; discriminate].
  - intros q _.
    exists ("data:image/png;base64," ++ Sample.repeatString 10 "TWFu")%string,
           30, "image/png"%string, (Sample.repeatString 10 "Man").
    repeat split; vm_compute; reflexivity.
Defined.

(** The loop in doubles: six attempts, the last at 0.5699999999999998 and
    not at 0.57; and a step of 5e-17, which the quality 1 absorbs, so that
    the quality never moves and the loop never ends. *)
Example loop_in_doubles :
  let h := Sample.host 3000 2000 10 in
  let o := Binary64.options (Sample.tightOptions "image/png") in
  let stuck := Binary64.options
                 {| maxLongSide := maxLongSide defaultOptions;
                    maxShortSide := maxShortSide defaultOptions;
                    maxSizeBytes := inject_Z 10;
                    mimeType := "image/png";
                    initialQuality := 1;
                    minQuality := 5 # 10;
                    qualityStep := 5 # 100000000000000000 |} in
  let run := Generic.compressImageFileWithLimit Binary64.arith h o 8
                                                Sample.photo in
  encodeAttempts (trace run) = 6%nat
  /\ lastAttempt (trace run) = Some (5134103575202364 # 9007199254740992)
  /\ (0 < qualityStep stuck)%Q
  /\ qualityAfter Binary64.arith (qualityStep stuck) 40 (initialQuality stuck)
     = initialQuality stuck
  /\ outcome (Generic.compressImageFileWithLimit Binary64.arith h stuck 40
                Sample.photo)
     = OutOfFuel.
Proof. vm_compute. repeat split. Qed.

(** C10: the type of the returned file is the type written in the header of
    the data URL that the canvas produced at the last attempt: when that URL
    is "data:<type>;base64,<payload>", the file has type <type>, whatever
    [mimeType] was configured; the [mimeType] option only reaches the result
    through what the canvas makes of it.  (In general the type is the text
    that [/:(.*?);/] captures in the part of the URL before the first
    comma.) *)
Theorem output_type_is_parsed_from_data_url (A : Arith) (host : Host)
  (o : Options) (fuel : nat) (file out : File)
  (Himage : JS.startsWith (file_type file) "image/" = true)
  (Hreturn : outcome (Generic.compressImageFileWithLimit A host o fuel file)
             = Return out) :
  exists (dataURL : string) (img : HTMLImageElement) (last : Q) (url : string),
    readAsDataURL host file = Some dataURL
    /\ loadImage host dataURL = Some img
    /\ lastAttempt (trace (Generic.compressImageFileWithLimit A host o fuel file))
       = Some last
    /\ (let p := Generic.planDimensions A o (img_width img) (img_height img) in
        canvasToDataURL host img (plan_width p) (plan_height p) (mimeType o) last)
       = Some url
    /\ JS.matchColonGroup (headerOf url) = Some (file_type out)
    /\ forall mime payload : string,
        url = ("data:" ++ mime ++ ";base64," ++ payload)%string ->
        hasChar ";" mime = false ->
        hasChar "," mime = false ->
        hasLineTerminator mime = false ->
        file_type out = mime.
Proof.
  rewrite generic_compress_image in * by assumption.
  destruct (readAsDataURL host file) as [dataURL|] eqn:Hread; [|discriminate].
  destruct (loadImage host dataURL) as [img|] eqn:Hload; [|discriminate].
  exists dataURL, img.
  rewrite afterDecodeIn_last.
  unfold afterDecodeIn in Hreturn. cbv zeta in Hreturn.
  cbn [outcome snd] in Hreturn.
  set (p := Generic.planDimensions A o (img_width img) (img_height img)) in *.
  destruct (outcome (Generic.encodeLoop A host o img (plan_width p)
                       (plan_height p) fuel (initialQuality o)))
    as [r | e |] eqn:Eo; try discriminate.
  destruct (generic_encodeLoop_returns_last A host o img (plan_width p)
              (plan_height p) fuel (initialQuality o) r Eo)
    as (last & Hlast & Hc & _).
  exists last, (fst r).
  assert (Htype : JS.matchColonGroup (headerOf (fst r)) = Some (file_type out)).
  { rewrite dataURLToFile_cases in Hreturn.
    destruct (JS.matchColonGroup (headerOf (fst r))) as [outMime|];
      [|discriminate].
    destruct (atob host (payloadOf (fst r))); [|discriminate].
    cbn in Hreturn. injection Hreturn as <-. reflexivity. }
  repeat split; try assumption.
  intros mime payload Hurl Hsemi Hcomma Hline.
  assert (Hheader : headerOf (fst r) = ("data:" ++ mime ++ ";base64")%string).
  { rewrite Hurl. unfold headerOf.
    replace ("data:" ++ mime ++ ";base64," ++ payload)%string
      with (("data:" ++ mime ++ ";base64") ++ String "," payload)%string
      by (rewrite !string_app_assoc; reflexivity).
    rewrite split_app; [reflexivity|].
    rewrite !hasChar_app, Hcomma. reflexivity. }
  rewrite Hheader in Htype. cbn in Htype.
  rewrite (lazyUpToSemicolon_app mime "base64" Hsemi Hline) in Htype.
  now injection Htype.
Qed.

(** A canvas that cannot encode the requested type answers with PNG, and PNG
    is then the type of the returned file, not the configured one. *)
Lemma output_type_is_parsed_from_data_url_witness :
  let o := Binary64.options (Sample.tightOptions "image/gif") in
  let h := Sample.host 3000 2000 10 in
  exists out,
    outcome (Generic.compressImageFileWithLimit Binary64.arith h o 8 Sample.photo)
    = Return out
    /\ file_type out = "image/png"%string
    /\ file_type out <> mimeType o
    /\ exists (dataURL : string) (img : HTMLImageElement) (last : Q) (url : string),
        readAsDataURL h Sample.photo = Some dataURL
        /\ loadImage h dataURL = Some img
        /\ lastAttempt
             (trace (Generic.compressImageFileWithLimit Binary64.arith h o 8
                       Sample.photo))
           = Some last
        /\ (let p := Generic.planDimensions Binary64.arith o (img_width img)
                                            (img_height img) in
            canvasToDataURL h img (plan_width p) (plan_height p) (mimeType o) last)
           = Some url
        /\ JS.matchColonGroup (headerOf url) = Some (file_type out)
        /\ forall mime payload : string,
            url = ("data:" ++ mime ++ ";base64," ++ payload)%string ->
            hasChar ";" mime = false ->
            hasChar "," mime = false ->
            hasLineTerminator mime = false ->
            file_type out = mime.
Proof.
  cbv zeta.
  exists {| file_bits := list_byte_of_string (Sample.repeatString 10 "Man");
            file_name := "photo.webp";
            file_type := "image/png" |}.
  split; [vm_compute; reflexivity|].
  split; [reflexivity|].
  split; [discriminate|].
  apply (output_type_is_parsed_from_data_url Binary64.arith
           (Sample.host 3000 2000 10)
           (Binary64.options (Sample.tightOptions "image/gif")) 8 Sample.photo).
  - reflexivity.
  - vm_compute. reflexivity.
Defined.
